(** * The ExponentiatedQuadratic kernel

    A shallow embedding of
    [tensorflow_probability/python/positive_semidefinite_kernels/exponentiated_quadratic.py],
    in three parts.

    - The program on real numbers.  Tensors are dense arrays: a shape and
      the elements in row-major order.  All tensors carry one element type
      and a fully known shape, so the static and the dynamic shape of a
      tensor coincide.  Operations are evaluated when they are called; an
      operation that raises is an [Err].  What is stated on this part
      either equates two runs of the same arithmetic, or carries the
      hypotheses under which the floating-point arithmetic of the program
      is exact or keeps the order of its arguments.
    - [Staged]: construction and evaluation under eager and under graph
      execution, with the element types of the tensors and the operations
      a tensor waits for.  It settles what construction checks, and when a
      failed check is raised.
    - [Float64]: the program on IEEE binary64 numbers, run on concrete
      inputs, for what rounding, underflow and NaN do to it. *)

From Stdlib Require Import String.
From Stdlib Require Import List Arith Lia Bool.
From Stdlib Require Import Reals Lra.
From Corelib Require PrimFloat FloatOps.
Import ListNotations.

(** ** Errors *)

Inductive error : Type :=
| ShapeError          (* shapes that do not broadcast *)
| ValidationError     (* a failed tf.assert_positive *)
| TypeMismatchError   (* tf.assert_same_float_dtype *)
| AttributeError      (* attribute access on None *)
| ValueError.         (* None handed to a tensor operation *)

Inductive result (A : Type) : Type :=
| Ok (a : A)
| Err (e : error).

Arguments Ok {A} a.
Arguments Err {A} e.

Definition bind {A B : Type} (c : result A) (f : A -> result B) : result B :=
  match c with
  | Ok a => f a
  | Err e => Err e
  end.

Declare Scope result_scope.
Delimit Scope result_scope with result.
Notation "x <- c ;; k" := (bind c (fun x => k))
  (at level 61, c at next level, right associativity) : result_scope.
Notation "c ;;; k" := (bind c (fun _ => k))
  (at level 61, right associativity) : result_scope.

(** ** Shapes and indices *)

Abbreviation shape_t := (list nat) (only parsing).
Abbreviation index := (list nat) (only parsing).

(** Number of elements of a shape. *)
Definition size (s : shape_t) : nat := fold_right Nat.mul 1 s.

(** One dimension of a broadcast: equal sizes, or one of them is 1. *)
Definition bdim (a b : nat) : option nat :=
  if a =? b then Some a
  else if a =? 1 then Some b
  else if b =? 1 then Some a
  else None.

(** Broadcast of two shapes given innermost dimension first. *)
Fixpoint broadcast_rev (a b : shape_t) : option shape_t :=
  match a, b with
  | [], _ => Some b
  | _, [] => Some a
  | x :: a', y :: b' =>
      match bdim x y, broadcast_rev a' b' with
      | Some d, Some r => Some (d :: r)
      | _, _ => None
      end
  end.

(** NumPy-style broadcast: dimensions align from the right. *)
Definition broadcast_shape (a b : shape_t) : option shape_t :=
  option_map (@rev nat) (broadcast_rev (rev a) (rev b)).

(** Shape [a] broadcasts to [s] without enlarging it. *)
Definition fits_rev (a s : shape_t) : Prop := broadcast_rev a s = Some s.

Definition fits (a s : shape_t) : Prop := broadcast_shape a s = Some s.

(** All indices of a shape, in row-major order. *)
Fixpoint indices (s : shape_t) : list index :=
  match s with
  | [] => [[]]
  | n :: s' => flat_map (fun i => map (cons i) (indices s')) (seq 0 n)
  end.

(** Row-major offset of an index. *)
Fixpoint ravel (s : shape_t) (i : index) : nat :=
  match s, i with
  | _ :: s', k :: i' => k * size s' + ravel s' i'
  | _, _ => 0
  end.

(** The index an operand of shape [s] is read at, for an index of the
    broadcast result: leading dimensions the operand lacks are dropped and
    a dimension of size 1 is read at 0.  Innermost first. *)
Fixpoint bidx_rev (s : shape_t) (i : index) : index :=
  match s, i with
  | d :: s', k :: i' => (if d =? 1 then 0 else k) :: bidx_rev s' i'
  | _, _ => []
  end.

Definition bidx (s : shape_t) (i : index) : index :=
  rev (bidx_rev (rev s) (rev i)).

(** An index within the bounds of a shape. *)
Definition valid (i : index) (s : shape_t) : Prop := Forall2 lt i s.

(** ** Tensors *)

Record tensor : Type := Tensor { shape : shape_t; data : list R }.

Definition rank (t : tensor) : nat := length (shape t).

(** A tensor that holds as many elements as its shape says. *)
Definition wf (t : tensor) : Prop := length (data t) = size (shape t).

Definition get (t : tensor) (i : index) : R :=
  nth (ravel (shape t) i) (data t) 0%R.

(** The tensor of shape [s] whose element at [i] is [f i]. *)
Definition mk (s : shape_t) (f : index -> R) : tensor :=
  Tensor s (map f (indices s)).

Definition scalar (x : R) : tensor := Tensor [] [x].

Definition tmap (f : R -> R) (t : tensor) : tensor :=
  Tensor (shape t) (map f (data t)).

(** Elementwise binary operation with broadcasting. *)
Definition broadcast_op (f : R -> R -> R) (a b : tensor) : result tensor :=
  match broadcast_shape (shape a) (shape b) with
  | Some s =>
      Ok (mk s (fun i => f (get a (bidx (shape a) i)) (get b (bidx (shape b) i))))
  | None => Err ShapeError
  end.

Definition Rsum (l : list R) : R := fold_right Rplus 0%R l.

(** ** The tensor operations the kernel calls *)

Module tf.

(** [tf.squared_difference(x, y)]: [(x - y)^2] elementwise, broadcasting. *)
Definition squared_difference (x y : tensor) : result tensor :=
  broadcast_op (fun a b => ((a - b) * (a - b))%R) x y.

(** [x + y] on tensors: the exact sum (the rounded one is
    [Float64.tf.add]). *)
Definition add (x y : tensor) : result tensor := broadcast_op Rplus x y.

(** [x * y] on tensors: the exact product (the rounded one is
    [Float64.tf.multiply]). *)
Definition multiply (x y : tensor) : result tensor := broadcast_op Rmult x y.

(** [x / y] on tensors (true division: [from __future__ import division]).
    The quotient is that of the reals, where a division by zero yields zero;
    the program's yields an infinity or NaN ([Float64.tf.truediv]). *)
Definition truediv (x y : tensor) : result tensor := broadcast_op Rdiv x y.

(** [c * x] for a Python float [c]. *)
Definition scale (c : R) (x : tensor) : tensor := tmap (Rmult c) x.

(** [x ** 2]. *)
Definition square (x : tensor) : tensor := tmap (fun a => (a ^ 2)%R) x.

(** [tf.exp(x)]: the exponential of the reals, which neither rounds to
    zero nor to one (the program's does, [Float64.tf.exp]). *)
Definition exp (x : tensor) : tensor := tmap Rtrigo_def.exp x.

(** [tf.identity(x)]. *)
Definition identity (x : tensor) : tensor := x.

(** [tf.convert_to_tensor(x)] of a tensor. *)
Definition convert_to_tensor (x : tensor) : tensor := x.

Definition positive (x : R) : bool := if Rlt_dec 0 x then true else false.

(** [tf.assert_positive(x)]: every element is strictly greater than zero. *)
Definition assert_positive (x : tensor) : result unit :=
  if forallb positive (data x) then Ok tt else Err ValidationError.

(** [with tf.control_dependencies(deps): ...]: the dependencies are run
    before the body.  This is what evaluating the body does; when that
    happens, at the call or later, is the matter of [Staged]. *)
Fixpoint control_dependencies (deps : list (result unit)) : result unit :=
  match deps with
  | [] => Ok tt
  | d :: deps' => bind d (fun _ => control_dependencies deps')
  end.

(** [tf.assert_same_float_dtype(tensors)]; [None] entries are skipped.  The
    tensors of this part all have the one element type, so there is no
    pair of present tensors for the check to reject; element types are
    followed in [Staged.assert_same_float_dtype]. *)
Definition assert_same_float_dtype (tensors : list (option tensor)) : result unit :=
  Ok tt.

(** [t.shape] of a Python value that is a tensor or [None]. *)
Definition shape_attr (t : option tensor) : result shape_t :=
  match t with
  | Some x => Ok (shape x)
  | None => Err AttributeError
  end.

(** [tf.shape(t)] of a Python value that is a tensor or [None]. *)
Definition shape_op (t : option tensor) : result shape_t :=
  match t with
  | Some x => Ok (shape x)
  | None => Err ValueError
  end.

Definition broadcast_static_shape (a b : shape_t) : result shape_t :=
  match broadcast_shape a b with
  | Some s => Ok s
  | None => Err ShapeError
  end.

Definition broadcast_dynamic_shape (a b : shape_t) : result shape_t :=
  match broadcast_shape a b with
  | Some s => Ok s
  | None => Err ShapeError
  end.

(** [tf.expand_dims(x, -k)]: a new axis of size 1 that ends up [k]-th from
    the right, for [1 <= k <= rank + 1]; an axis out of this range is
    rejected.  ([-0] is the axis 0, at the front.) *)
Definition expand_dims_neg (x : tensor) (k : nat) : result tensor :=
  if k <=? rank x + 1 then
    let p := if k =? 0 then 0 else rank x + 1 - k in
    Ok (Tensor (firstn p (shape x) ++ 1 :: skipn p (shape x)) (data x))
  else Err ValueError.

(** [x[i]]: the slice of [x] at position [i] of its first axis. *)
Definition item (x : tensor) (i : nat) : result tensor :=
  match shape x with
  | n :: s =>
      if i <? n
      then Ok (Tensor s (firstn (size s) (skipn (i * size s) (data x))))
      else Err ValueError
  | [] => Err ValueError
  end.

End tf.

(** ** positive_semidefinite_kernels.util *)

Module util.

(** Modelled from the spec: [util.sum_rightmost_ndims_preserving_shape] is
    not among the sources.  Spec 4.2, [reduce_feature_dims]: sums the
    trailing [ndims] dimensions; the leading dimensions are unchanged.
    The spec requires a rank of at least [ndims]; a lower rank is
    rejected. *)
Definition sum_rightmost_ndims_preserving_shape (x : tensor) (ndims : nat)
  : result tensor :=
  if ndims <=? rank x then
    let r := rank x - ndims in
    Ok (mk (firstn r (shape x))
           (fun i => Rsum (map (fun j => get x (i ++ j))
                               (indices (skipn r (shape x))))))
  else Err ShapeError.

(** Modelled from the spec: [util.pad_shape_right_with_ones] is not among
    the sources.  Spec 4.1, [pad_right_with_ones]: appends [ndims] trailing
    dimensions of size 1. *)
Definition pad_shape_right_with_ones (x : tensor) (ndims : nat) : tensor :=
  Tensor (shape x ++ repeat 1 ndims) (data x).

End util.

(** ** The kernel *)

(** The state of an [ExponentiatedQuadratic] instance: the attributes
    [_amplitude] and [_length_scale], and [_feature_ndims] of the base class.
    An absent parameter is [None].  The name only labels the operations the
    instance creates and is not kept. *)
Record kernel : Type := Kernel {
  amplitude : option tensor;
  length_scale : option tensor;
  feature_ndims : nat
}.

Definition _validate_arg_if_not_none (arg : option tensor)
    (assertion : tensor -> result unit) (validate_args : bool)
  : result (option tensor) :=
  match arg with
  | None => Ok None
  | Some a =>
      bind (tf.control_dependencies (if validate_args then [assertion a] else []))
           (fun _ => Ok (Some (tf.identity a)))
  end.

Local Open Scope result_scope.

(** [ExponentiatedQuadratic.__init__].  The name scope has no effect on the
    values; the base class keeps [feature_ndims]. *)
Definition __init__ (amplitude length_scale : option tensor)
    (feature_ndims : nat) (validate_args : bool) (name : string)
  : result kernel :=
  _amplitude <- _validate_arg_if_not_none amplitude tf.assert_positive validate_args ;;
  _length_scale <- _validate_arg_if_not_none length_scale tf.assert_positive validate_args ;;
  tf.assert_same_float_dtype [_amplitude; _length_scale] ;;;
  Ok (Kernel _amplitude _length_scale feature_ndims).

Definition _batch_shape (self : kernel) : result shape_t :=
  a <- tf.shape_attr (amplitude self) ;;
  l <- tf.shape_attr (length_scale self) ;;
  tf.broadcast_static_shape a l.

Definition _batch_shape_tensor (self : kernel) : result shape_t :=
  a <- tf.shape_op (amplitude self) ;;
  l <- tf.shape_op (length_scale self) ;;
  tf.broadcast_dynamic_shape a l.

Definition _apply (self : kernel) (x1 x2 : tensor) (param_expansion_ndims : nat)
  : result tensor :=
  let x1 := tf.convert_to_tensor x1 in
  let x2 := tf.convert_to_tensor x2 in
  d <- tf.squared_difference x1 x2 ;;
  s <- util.sum_rightmost_ndims_preserving_shape d (feature_ndims self) ;;
  let exponent := tf.scale (-0.5) s in
  exponent <-
    match length_scale self with
    | Some l =>
        let length_scale := util.pad_shape_right_with_ones l param_expansion_ndims in
        tf.truediv exponent (tf.square length_scale)
    | None => Ok exponent
    end ;;
  let exponential := tf.exp exponent in
  match amplitude self with
  | Some a =>
      let amplitude := util.pad_shape_right_with_ones a param_expansion_ndims in
      tf.multiply amplitude exponential
  | None => Ok exponential
  end.

(** ** The base class PositiveSemidefiniteKernel *)

(** Modelled from the spec: [PositiveSemidefiniteKernel.batch_shape],
    [batch_shape_tensor], [apply] and [matrix] are not among the sources.
    Spec 4.4: [batch_shape] and [batch_shape_dynamic] are the kernel's own
    static and dynamic batch shape. *)
Definition batch_shape (self : kernel) : result shape_t := _batch_shape self.

Definition batch_shape_dynamic (self : kernel) : result shape_t :=
  _batch_shape_tensor self.

(** Modelled from the spec: 4.5, [apply(x1, x2)] is the kernel's algorithm
    with [extra_trailing_dims = 0]. *)
Definition apply (self : kernel) (x1 x2 : tensor) : result tensor :=
  _apply self x1 x2 0.

(** Modelled from the spec: 4.4 and 4.5, [matrix]: the axis before the
    feature dimensions of [x1] and of [x2] is the example axis; the inputs
    are expanded to the all-pairs grid, one new axis each, and the algorithm
    runs with [extra_trailing_dims] the number of axes introduced, 2. *)
Definition matrix (self : kernel) (x1 x2 : tensor) : result tensor :=
  x1 <- tf.expand_dims_neg x1 (feature_ndims self + 1) ;;
  x2 <- tf.expand_dims_neg x2 (feature_ndims self + 2) ;;
  _apply self x1 x2 2.

(** ** The kernel as the specification states it *)

Module Spec.

(** The leading (batch) and the trailing [n] (feature) dimensions. *)
Definition batch_dims (n : nat) (s : shape_t) : shape_t :=
  firstn (length s - n) s.

Definition feature_dims (n : nat) (s : shape_t) : shape_t :=
  skipn (length s - n) s.

(** [S]: the sum, over the feature dimensions [fs], of the squared
    per-coordinate differences of the pair of feature vectors at batch
    index [b]. *)
Definition sq_distance (x1 x2 : tensor) (fs : shape_t) (b : index) : R :=
  Rsum (map (fun j => ((get x1 (bidx (shape x1) (b ++ j))
                        - get x2 (bidx (shape x2) (b ++ j))) ^ 2)%R)
            (indices fs)).

(** The Euclidean distance [||x1 - x2||] of that pair. *)
Definition distance (x1 x2 : tensor) (fs : shape_t) (b : index) : R :=
  sqrt (sq_distance x1 x2 fs b).

(** Shape of the result for inputs that broadcast to [sd]: the batch
    dimensions broadcast with the shapes of the present parameters. *)
Definition out_shape (a l : option tensor) (n : nat) (sd : shape_t)
  : option shape_t :=
  match match l with
        | Some l => broadcast_shape (batch_dims n sd) (shape l)
        | None => Some (batch_dims n sd)
        end with
  | Some s1 =>
      match a with
      | Some a => broadcast_shape (shape a) s1
      | None => Some s1
      end
  | None => None
  end.

(** The exponent [-0.5 * S / length_scale^2] at index [i] of the result;
    the division is skipped for an absent length scale. *)
Definition exponent_of (l : option tensor) (i : index) (S : R) : R :=
  match l with
  | Some l => (-0.5 * S / (get l (bidx (shape l) i)) ^ 2)%R
  | None => (-0.5 * S)%R
  end.

(** [amplitude * exp(-0.5 * S / length_scale^2)] at index [i] of the
    result; the multiplication is skipped for an absent amplitude. *)
Definition kernel_value (a l : option tensor) (n : nat) (x1 x2 : tensor)
    (sd : shape_t) (i : index) : R :=
  let S := sq_distance x1 x2 (feature_dims n sd) (bidx (batch_dims n sd) i) in
  let e := exponent_of l i S in
  match a with
  | Some a => (get a (bidx (shape a) i) * Rtrigo_def.exp e)%R
  | None => Rtrigo_def.exp e
  end.

(** The whole result of the algorithm of 4.5 for parameters [a] and [l]. *)
Definition kernel_apply (a l : option tensor) (n : nat) (x1 x2 : tensor)
  : result tensor :=
  match broadcast_shape (shape x1) (shape x2) with
  | Some sd =>
      if n <=? length sd then
        match out_shape a l n sd with
        | Some s => Ok (mk s (kernel_value a l n x1 x2 sd))
        | None => Err ShapeError
        end
      else Err ShapeError
  | None => Err ShapeError
  end.

(** A tensor stretched to shape [s]. *)
Definition broadcast_to (t : tensor) (s : shape_t) : tensor :=
  mk s (fun i => get t (bidx (shape t) i)).

(** Every element of a present parameter is strictly positive. *)
Definition all_positive (p : option tensor) : Prop :=
  match p with
  | Some t => Forall (fun x => (0 < x)%R) (data t)
  | None => True
  end.


Definition has_nonpositive (p : option tensor) : Prop :=
  match p with
  | Some t => exists x, In x (data t) /\ (x <= 0)%R
  | None => False
  end.



End Spec.

(** ** Inputs of the concrete runs *)

Module Inputs.

Local Open Scope R_scope.

(** A kernel with [amplitude = 2] and [length_scale = 1] on vectors. *)
Definition k21 : kernel := Kernel (Some (scalar 2)) (Some (scalar 1)) 1.

Definition v123 : tensor := Tensor [3%nat] [1; 2; 3].
Definition v124 : tensor := Tensor [3%nat] [1; 2; 4].

Definition origin2 : tensor := Tensor [2%nat] [0; 0].

Definition x5 : tensor := Tensor [5%nat; 1%nat] [1; 2; 3; 4; 5].
Definition x7 : tensor := Tensor [7%nat; 1%nat] [1; 2; 3; 4; 5; 6; 7].

End Inputs.

(** ** Further notions *)

(** A parameter that is absent or a scalar (rank 0). *)
Definition scalar_or_absent (p : option tensor) : Prop :=
  match p with
  | Some t => shape t = []
  | None => True
  end.

(** An assertion that rejects every tensor, with a given error. *)
Definition always_fails (e : error) (t : tensor) : result unit := Err e.

(** ** Further inputs of the concrete runs *)

Module MoreInputs.

Local Open Scope R_scope.

(** A single coordinate, to be stretched against a vector. *)
Definition point0 : tensor := Tensor [1%nat] [0].

End MoreInputs.

(** ** Construction and evaluation, eager or through a graph

    The definitions above run every operation when it is called.  TensorFlow
    also builds graphs: there a call only creates an operation, which runs
    when a value that depends on it is evaluated.  This part keeps, for
    every tensor, its element type and the operations that have to run
    before its value is available, and follows the source in both ways of
    execution. *)

Module Staged.

Inductive execution : Type := Eager | Graph.

Inductive dtype : Type := float16 | float32 | float64 | int32 | int64.

Definition is_floating (d : dtype) : bool :=
  match d with
  | float16 | float32 | float64 => true
  | int32 | int64 => false
  end.

Definition dtype_eqb (a b : dtype) : bool :=
  match a, b with
  | float16, float16 | float32, float32 | float64, float64
  | int32, int32 | int64, int64 => true
  | _, _ => false
  end.

(** An operation of a graph, by what running it does. *)
Definition op : Type := result unit.

(** A tensor as the program holds it: its element type, the operations
    that run before its value is produced, and that value. *)
Record node : Type := Node {
  dtype_of : dtype;
  control_inputs : list op;
  output : tensor
}.

(** A tensor with nothing left to run: a constant, or any eager tensor. *)
Definition concrete (x : node) : Prop := control_inputs x = [].

(** Evaluating a tensor: the operations it waits for run first. *)
Definition run (x : node) : result tensor :=
  bind (tf.control_dependencies (control_inputs x)) (fun _ => Ok (output x)).

(** [tf.assert_positive(x)].  Eager: the check runs in the call, a failure
    is raised there, and nothing is left to wait for.  Graph: the call
    returns the assertion as an operation. *)
Definition assert_positive (m : execution) (x : node) : result op :=
  match m with
  | Eager => bind (bind (run x) tf.assert_positive) (fun _ => Ok (Ok tt))
  | Graph => Ok (bind (run x) tf.assert_positive)
  end.

(** [with tf.control_dependencies(deps):] the operations created in the
    block wait for [deps]; in eager execution the block does nothing. *)
Definition control_dependencies (m : execution) (deps : list op) : list op :=
  match m with
  | Eager => []
  | Graph => deps
  end.

(** [tf.identity(x)], created while [deps] are the control dependencies. *)
Definition identity (deps : list op) (x : node) : node :=
  Node (dtype_of x) (deps ++ control_inputs x) (output x).

Definition _validate_arg_if_not_none (m : execution) (arg : option node)
    (assertion : execution -> node -> result op) (validate_args : bool)
  : result (option node) :=
  match arg with
  | None => Ok None
  | Some a =>
      deps <- (if validate_args
               then o <- assertion m a ;; Ok [o]
               else Ok []) ;;
      Ok (Some (identity (control_dependencies m deps) a))
  end.

(** [tf.assert_same_float_dtype(tensors)]: the present tensors have one
    element type, and it is a floating-point type ([float32] when no tensor
    is present). *)
Fixpoint same_base_type (tensors : list (option node)) (expected : option dtype)
  : result (option dtype) :=
  match tensors with
  | [] => Ok expected
  | None :: rest => same_base_type rest expected
  | Some x :: rest =>
      match expected with
      | None => same_base_type rest (Some (dtype_of x))
      | Some d =>
          if dtype_eqb d (dtype_of x) then same_base_type rest expected
          else Err TypeMismatchError
      end
  end.

Definition assert_same_float_dtype (tensors : list (option node)) : result dtype :=
  d <- same_base_type tensors None ;;
  match d with
  | None => Ok float32
  | Some d => if is_floating d then Ok d else Err TypeMismatchError
  end.

Record kernel : Type := Kernel {
  amplitude : option node;
  length_scale : option node;
  feature_ndims : nat
}.

Definition __init__ (m : execution) (amplitude length_scale : option node)
    (feature_ndims : nat) (validate_args : bool) (name : string)
  : result kernel :=
  _amplitude <- _validate_arg_if_not_none m amplitude assert_positive validate_args ;;
  _length_scale <- _validate_arg_if_not_none m length_scale assert_positive validate_args ;;
  assert_same_float_dtype [_amplitude; _length_scale] ;;;
  Ok (Kernel _amplitude _length_scale feature_ndims).

(** An operation on one tensor waits for what its input waits for. *)
Definition lift1 (f : tensor -> tensor) (x : node) : node :=
  Node (dtype_of x) (control_inputs x) (f (output x)).

Definition lift1r (f : tensor -> result tensor) (x : node) : result node :=
  r <- f (output x) ;; Ok (Node (dtype_of x) (control_inputs x) r).

(** An operation on two tensors takes one element type and waits for what
    either input waits for. *)
Definition lift2 (f : tensor -> tensor -> result tensor) (x y : node)
  : result node :=
  if dtype_eqb (dtype_of x) (dtype_of y) then
    r <- f (output x) (output y) ;;
    Ok (Node (dtype_of x) (control_inputs x ++ control_inputs y) r)
  else Err TypeMismatchError.

Definition _apply (self : kernel) (x1 x2 : node) (param_expansion_ndims : nat)
  : result node :=
  let x1 := lift1 tf.convert_to_tensor x1 in
  let x2 := lift1 tf.convert_to_tensor x2 in
  d <- lift2 tf.squared_difference x1 x2 ;;
  s <- lift1r (fun t => util.sum_rightmost_ndims_preserving_shape
                          t (feature_ndims self)) d ;;
  let exponent := lift1 (tf.scale (-0.5)) s in
  exponent <-
    match length_scale self with
    | Some l =>
        let length_scale :=
          lift1 (fun t => util.pad_shape_right_with_ones t param_expansion_ndims) l in
        lift2 tf.truediv exponent (lift1 tf.square length_scale)
    | None => Ok exponent
    end ;;
  let exponential := lift1 tf.exp exponent in
  match amplitude self with
  | Some a =>
      let amplitude :=
        lift1 (fun t => util.pad_shape_right_with_ones t param_expansion_ndims) a in
      lift2 tf.multiply amplitude exponential
  | None => Ok exponential
  end.

(** The operations a parameter waits for, and its value. *)
Definition waits_for (p : option node) : list op :=
  match p with
  | Some x => control_inputs x
  | None => []
  end.

Definition value_of (p : option node) : option tensor := option_map output p.

Definition all_concrete (p : option node) : Prop :=
  match p with
  | Some x => concrete x
  | None => True
  end.

(** A parameter as graph construction leaves it with [validate_args]:
    the same tensor, waiting for its assertion. *)
Definition guard (p : option node) : option node :=
  option_map (fun x => identity [bind (run x) tf.assert_positive] x) p.

(** A length scale of [-1.0], the example of the specification, and the
    kernel that graph construction makes of it. *)
Definition minus_one : node := Node float32 [] (scalar (-1)).

Definition guarded_minus_one : node :=
  Node float32 [bind (run minus_one) tf.assert_positive] (scalar (-1)).

Definition vector123 : node := Node float32 [] (Tensor [3] [1%R; 2%R; 3%R]).

Definition guarded_kernel : kernel := Kernel None (Some guarded_minus_one) 1.

End Staged.

(** ** Evaluation in IEEE binary64

    The real numbers above describe the program as far as its arithmetic is
    exact.  This part runs [_apply] on tensors of dtype float64, with the
    arithmetic of IEEE 754 binary64 (round to nearest, ties to even): there
    zero divided by zero is NaN, a small result rounds to zero and a large
    shift absorbs a small coordinate. *)

Module Float64.

Import PrimFloat.

(** An element: a binary64 number, or [None] for a number this model
    leaves open (see [exp_value]). *)
Definition value : Type := option float.

Definition lift1 (f : float -> float) (x : value) : value := option_map f x.

Definition lift2 (f : float -> float -> float) (x y : value) : value :=
  match x, y with
  | Some a, Some b => Some (f a b)
  | _, _ => None
  end.

Record tensor : Type := Tensor { shape : shape_t; data : list value }.

Definition rank (t : tensor) : nat := length (shape t).

Definition get (t : tensor) (i : index) : value :=
  nth (ravel (shape t) i) (data t) None.

Definition mk (s : shape_t) (f : index -> value) : tensor :=
  Tensor s (map f (indices s)).

Definition of_floats (s : shape_t) (l : list float) : tensor :=
  Tensor s (map Some l).

Definition scalar (x : float) : tensor := of_floats [] [x].

Definition tmap (f : value -> value) (t : tensor) : tensor :=
  Tensor (shape t) (map f (data t)).

(** Elementwise binary operation with broadcasting. *)
Definition broadcast_op (f : value -> value -> value) (a b : tensor)
  : result tensor :=
  match broadcast_shape (shape a) (shape b) with
  | Some s =>
      Ok (mk s (fun i => f (get a (bidx (shape a) i)) (get b (bidx (shape b) i))))
  | None => Err ShapeError
  end.

(** A sum, one addition after the other. *)
Definition vsum (l : list value) : value := fold_right (lift2 add) (Some zero) l.

(** The exponential where IEEE 754 and the range of binary64 fix it:
    [exp(NaN)] is NaN, [exp(+-0)] is 1, below [-746] the result is less than
    half the smallest positive number and rounds to [0], and from [710] on
    it exceeds the largest number and is [+inf].  In between the last digit
    depends on the library, and the value is left open. *)
Definition exp_value (x : float) : value :=
  if is_nan x then Some nan
  else if is_zero x then Some one
  else if leb x (-746)%float then Some zero
  else if leb 710%float x then Some infinity
  else None.

Module tf.

(** [tf.squared_difference(x, y)]: [(x - y) * (x - y)] elementwise. *)
Definition squared_difference (x y : tensor) : result tensor :=
  broadcast_op (lift2 (fun a b => mul (sub a b) (sub a b))) x y.


Definition add (x y : tensor) : result tensor := broadcast_op (lift2 PrimFloat.add) x y.

Definition multiply (x y : tensor) : result tensor := broadcast_op (lift2 mul) x y.

Definition truediv (x y : tensor) : result tensor := broadcast_op (lift2 div) x y.

(** [c * x] for a Python float [c]. *)
Definition scale (c : float) (x : tensor) : tensor := tmap (lift1 (mul c)) x.

(** [x ** 2]. *)
Definition square (x : tensor) : tensor := tmap (lift1 (fun a => mul a a)) x.

(** [tf.exp(x)]. *)
Definition exp (x : tensor) : tensor :=
  tmap (fun v => match v with Some a => exp_value a | None => None end) x.

(** [tf.convert_to_tensor(x)] of a tensor. *)
Definition convert_to_tensor (x : tensor) : tensor := x.

End tf.

Module util.

(** Modelled from the spec: [util.sum_rightmost_ndims_preserving_shape] and
    [util.pad_shape_right_with_ones] are not among the sources (spec 4.2
    and 4.1), as above. *)
Definition sum_rightmost_ndims_preserving_shape (x : tensor) (ndims : nat)
  : result tensor :=
  if ndims <=? rank x then
    let r := rank x - ndims in
    Ok (mk (firstn r (shape x))
           (fun i => vsum (map (fun j => get x (i ++ j))
                               (indices (skipn r (shape x))))))
  else Err ShapeError.

Definition pad_shape_right_with_ones (x : tensor) (ndims : nat) : tensor :=
  Tensor (shape x ++ repeat 1 ndims) (data x).

End util.

Record kernel : Type := Kernel {
  amplitude : option tensor;
  length_scale : option tensor;
  feature_ndims : nat
}.

Definition _apply (self : kernel) (x1 x2 : tensor) (param_expansion_ndims : nat)
  : result tensor :=
  let x1 := tf.convert_to_tensor x1 in
  let x2 := tf.convert_to_tensor x2 in
  d <- tf.squared_difference x1 x2 ;;
  s <- util.sum_rightmost_ndims_preserving_shape d (feature_ndims self) ;;
  let exponent := tf.scale (-0.5)%float s in
  exponent <-
    match length_scale self with
    | Some l =>
        let length_scale := util.pad_shape_right_with_ones l param_expansion_ndims in
        tf.truediv exponent (tf.square length_scale)
    | None => Ok exponent
    end ;;
  let exponential := tf.exp exponent in
  match amplitude self with
  | Some a =>
      let amplitude := util.pad_shape_right_with_ones a param_expansion_ndims in
      tf.multiply amplitude exponential
  | None => Ok exponential
  end.

(** Modelled from the spec: 4.5, [apply(x1, x2)] of the base class, as
    above. *)
Definition apply (self : kernel) (x1 x2 : tensor) : result tensor :=
  _apply self x1 x2 0.

(** The inputs of the concrete runs: the kernel with [amplitude = 2.0] and
    [length_scale = 1.0], the same kernel with a length scale of [0.0] and
    of [2^-600], the shift [1e19] and points on a line. *)
Definition k21 : kernel := Kernel (Some (scalar 2)) (Some (scalar 1)) 1.

Definition v123 : tensor := of_floats [3] [1%float; 2%float; 3%float].

End Float64.

(** * Properties *)

(** ** Indices and row-major offsets *)

Section Indices.

Lemma length_indices (s : shape_t) : length (indices s) = size s.
Proof.
  induction s as [|n s IH]; simpl; [reflexivity|].
  generalize 0 at 1. induction n as [|n IHn]; intros a; simpl; [reflexivity|].
  rewrite length_app, length_map, IH, IHn. reflexivity.
Qed.

Lemma in_indices_valid (s : shape_t) (i : index) :
  In i (indices s) <-> valid i s.
Proof.
  unfold valid. revert i. induction s as [|n s IH]; intros i; simpl.
  - split.
    + intros [<-|[]]. constructor.
    + intros H. inversion H. now left.
  - rewrite in_flat_map. split.
    + intros (k & Hk & Hi). apply in_map_iff in Hi as (j & <- & Hj).
      apply in_seq in Hk. constructor; [lia|]. now apply IH.
    + intros H. inversion H as [|k ? j ? Hk Hj]; subst.
      exists k. split; [apply in_seq; lia|].
      apply in_map. now apply IH.
Qed.

Lemma valid_length (i : index) (s : shape_t) : valid i s -> length i = length s.
Proof. unfold valid. induction 1; simpl; congruence. Qed.

Lemma ravel_lt (s : shape_t) (i : index) : valid i s -> ravel s i < size s.
Proof.
  unfold valid. intros H. induction H as [|k n i s Hk _ IH]; simpl; [lia|].
  nia.
Qed.

(** A list of [n] blocks of [m] elements each is read block by block. *)
Lemma nth_flat_map_blocks (A : Type) (g : nat -> list A) (m : nat) (d : A) :
  (forall k, length (g k) = m) ->
  forall n a k r, k < n -> r < m ->
    nth (k * m + r) (flat_map g (seq a n)) d = nth r (g (a + k)) d.
Proof.
  intros Hg. induction n as [|n IH]; intros a k r Hk Hr; [lia|].
  simpl. destruct k as [|k].
  - simpl. rewrite app_nth1 by (rewrite Hg; lia).
    now rewrite Nat.add_0_r.
  - rewrite app_nth2 by (rewrite Hg; simpl; lia).
    rewrite Hg. replace (S k * m + r - m) with (k * m + r) by (simpl; lia).
    rewrite IH by lia. f_equal. f_equal. lia.
Qed.

Lemma nth_ravel_indices (s : shape_t) (i : index) (d : index) :
  valid i s -> nth (ravel s i) (indices s) d = i.
Proof.
  unfold valid. intros H. induction H as [|k n i s Hk Hi IH]; [reflexivity|].
  simpl.
  rewrite (nth_flat_map_blocks _ (fun k => map (cons k) (indices s)) (size s)).
  - simpl. rewrite (nth_indep _ d (k :: d)).
    + rewrite (map_nth (cons k)). now rewrite IH.
    + rewrite length_map, length_indices. now apply ravel_lt.
  - intros. now rewrite length_map, length_indices.
  - exact Hk.
  - now apply ravel_lt.
Qed.




End Indices.

(** ** Reading and building tensors *)

Section Tensors.

Lemma get_mk (s : shape_t) (f : index -> R) (i : index) :
  valid i s -> get (mk s f) i = f i.
Proof.
  intros H. unfold get, mk. simpl.
  rewrite (nth_indep _ 0%R (f [])).
  - rewrite map_nth. now rewrite nth_ravel_indices.
  - rewrite length_map, length_indices. now apply ravel_lt.
Qed.

Lemma mk_ext (s : shape_t) (f g : index -> R) :
  (forall i, valid i s -> f i = g i) -> mk s f = mk s g.
Proof.
  intros H. unfold mk. f_equal. apply map_ext_in.
  intros i Hi. apply H. now apply in_indices_valid.
Qed.

Lemma shape_mk (s : shape_t) (f : index -> R) : shape (mk s f) = s.
Proof. reflexivity. Qed.

Lemma wf_mk (s : shape_t) (f : index -> R) : wf (mk s f).
Proof. unfold wf, mk. simpl. now rewrite length_map, length_indices. Qed.



Lemma get_tmap (f : R -> R) (t : tensor) (i : index) :
  wf t -> valid i (shape t) -> get (tmap f t) i = f (get t i).
Proof.
  intros Hw Hi. unfold get, tmap. simpl.
  rewrite (nth_indep _ 0%R (f 0%R)).
  - now rewrite map_nth.
  - rewrite length_map, Hw. now apply ravel_lt.
Qed.

Lemma tmap_mk (f : R -> R) (s : shape_t) (g : index -> R) :
  tmap f (mk s g) = mk s (fun i => f (g i)).
Proof. unfold tmap, mk. simpl. now rewrite map_map. Qed.

End Tensors.

(** ** Broadcasting *)

Section Broadcasting.

Lemma bdim_comm (a b : nat) : bdim a b = bdim b a.
Proof.
  unfold bdim. rewrite (Nat.eqb_sym b a).
  destruct (a =? b) eqn:E.
  - apply Nat.eqb_eq in E. now subst.
  - destruct (a =? 1) eqn:Ea, (b =? 1) eqn:Eb; try reflexivity.
    apply Nat.eqb_eq in Ea, Eb. apply Nat.eqb_neq in E. lia.
Qed.

Lemma bdim_refl (a : nat) : bdim a a = Some a.
Proof. unfold bdim. now rewrite Nat.eqb_refl. Qed.

Lemma broadcast_rev_comm (a b : shape_t) : broadcast_rev a b = broadcast_rev b a.
Proof.
  revert b. induction a as [|x a IH]; intros [|y b]; simpl; try reflexivity.
  now rewrite bdim_comm, IH.
Qed.

Lemma broadcast_shape_comm (a b : shape_t) :
  broadcast_shape a b = broadcast_shape b a.
Proof. unfold broadcast_shape. now rewrite broadcast_rev_comm. Qed.

Lemma broadcast_rev_refl (a : shape_t) : broadcast_rev a a = Some a.
Proof.
  induction a as [|x a IH]; simpl; [reflexivity|].
  now rewrite bdim_refl, IH.
Qed.

Lemma broadcast_shape_refl (a : shape_t) : broadcast_shape a a = Some a.
Proof.
  unfold broadcast_shape. rewrite broadcast_rev_refl. simpl.
  now rewrite rev_involutive.
Qed.

Lemma broadcast_shape_nil_l (a : shape_t) : broadcast_shape [] a = Some a.
Proof. unfold broadcast_shape. simpl. now rewrite rev_involutive. Qed.

Lemma broadcast_shape_nil_r (a : shape_t) : broadcast_shape a [] = Some a.
Proof. rewrite broadcast_shape_comm. apply broadcast_shape_nil_l. Qed.

Lemma fits_fits_rev (a s : shape_t) : fits a s <-> fits_rev (rev a) (rev s).
Proof.
  unfold fits, fits_rev, broadcast_shape.
  destruct (broadcast_rev (rev a) (rev s)) as [r|]; simpl.
  - split.
    + intros [= <-]. now rewrite rev_involutive.
    + intros [= ->]. now rewrite rev_involutive.
  - split; discriminate.
Qed.

Lemma bdim_fits_l (x y d : nat) : bdim x y = Some d -> bdim x d = Some d.
Proof.
  unfold bdim. destruct (x =? y) eqn:E.
  - intros [= <-]. now rewrite Nat.eqb_refl.
  - destruct (x =? 1) eqn:E1.
    + intros [= <-]. now rewrite E.
    + destruct (y =? 1); [|discriminate]. intros [= <-].
      now rewrite Nat.eqb_refl.
Qed.

Lemma broadcast_rev_fits_l (a b s : shape_t) :
  broadcast_rev a b = Some s -> fits_rev a s.
Proof.
  unfold fits_rev. revert b s.
  induction a as [|x a IH]; intros b s; [reflexivity|].
  destruct b as [|y b]; simpl.
  - intros [= <-]. apply (broadcast_rev_refl (x :: a)).
  - destruct (bdim x y) as [d|] eqn:Ed; [|discriminate].
    destruct (broadcast_rev a b) as [r|] eqn:Er; [|discriminate].
    intros [= <-]. simpl. now rewrite (bdim_fits_l _ _ _ Ed), (IH _ _ Er).
Qed.

Lemma broadcast_rev_fits_r (a b s : shape_t) :
  broadcast_rev a b = Some s -> fits_rev b s.
Proof. rewrite broadcast_rev_comm. apply broadcast_rev_fits_l. Qed.

Lemma broadcast_shape_fits_l (a b s : shape_t) :
  broadcast_shape a b = Some s -> fits a s.
Proof.
  intros H. apply fits_fits_rev. unfold broadcast_shape in H.
  destruct (broadcast_rev (rev a) (rev b)) as [r|] eqn:E; [|discriminate].
  inversion H; subst. rewrite rev_involutive.
  eapply broadcast_rev_fits_l; eauto.
Qed.

Lemma broadcast_shape_fits_r (a b s : shape_t) :
  broadcast_shape a b = Some s -> fits b s.
Proof. rewrite broadcast_shape_comm. apply broadcast_shape_fits_l. Qed.

Lemma fits_refl (s : shape_t) : fits s s.
Proof. apply broadcast_shape_refl. Qed.

Lemma fits_rev_length (a s : shape_t) : fits_rev a s -> length a <= length s.
Proof.
  unfold fits_rev. revert s. induction a as [|x a IH]; intros s; simpl; [lia|].
  destruct s as [|y s]; [discriminate|].
  destruct (bdim x y); [|discriminate].
  destruct (broadcast_rev a s) as [r|] eqn:E; [|discriminate].
  intros [= -> ->]. simpl. apply IH in E. lia.
Qed.

End Broadcasting.

(** ** Reading an operand of a broadcast *)

Section ReadIndex.

Lemma Forall2_lt_rev (i s : list nat) :
  Forall2 lt i s -> Forall2 lt (rev i) (rev s).
Proof.
  induction 1 as [|k n i s Hk _ IH]; simpl; [constructor|].
  apply Forall2_app; [exact IH|]. repeat constructor. exact Hk.
Qed.

Lemma valid_rev (i s : list nat) : valid i s <-> Forall2 lt (rev i) (rev s).
Proof.
  split; [apply Forall2_lt_rev|].
  intros H. apply Forall2_lt_rev in H. now rewrite !rev_involutive in H.
Qed.

Lemma valid_app (i j s t : list nat) :
  valid i s -> valid j t -> valid (i ++ j) (s ++ t).
Proof. apply Forall2_app. Qed.

Lemma valid_nil (i : index) : valid i [] <-> i = [].
Proof.
  split; [|intros ->; constructor].
  intros H. now inversion H.
Qed.

Lemma bdim_fits_lt (x y k : nat) :
  bdim x y = Some y -> k < y -> (if x =? 1 then 0 else k) < x.
Proof.
  unfold bdim. destruct (x =? y) eqn:E.
  - apply Nat.eqb_eq in E. subst. destruct (y =? 1) eqn:E1; [|auto].
    apply Nat.eqb_eq in E1. lia.
  - destruct (x =? 1) eqn:E1.
    + apply Nat.eqb_eq in E1. lia.
    + destruct (y =? 1) eqn:E2; [|discriminate].
      apply Nat.eqb_eq in E2. apply Nat.eqb_neq in E1. intros [= ->]. lia.
Qed.

Lemma bidx_rev_valid (a s i : list nat) :
  fits_rev a s -> Forall2 lt i s -> Forall2 lt (bidx_rev a i) a.
Proof.
  unfold fits_rev. revert s i. induction a as [|x a IH]; intros s i Hf Hi.
  - constructor.
  - destruct Hi as [|k y i s Hk Hi]; [discriminate|]. simpl in *.
    destruct (bdim x y) as [d|] eqn:Ed; [|discriminate].
    destruct (broadcast_rev a s) as [r|] eqn:Er; [|discriminate].
    injection Hf as -> ->. constructor.
    + now apply (bdim_fits_lt _ _ _ Ed).
    + now apply (IH s).
Qed.

Lemma bidx_valid (a s i : list nat) :
  fits a s -> valid i s -> valid (bidx a i) a.
Proof.
  intros Hf Hi. apply valid_rev. unfold bidx. rewrite rev_involutive.
  apply bidx_rev_valid with (s := rev s).
  - now apply fits_fits_rev.
  - now apply Forall2_lt_rev.
Qed.

Lemma bidx_rev_compose (a s i : list nat) :
  fits_rev a s -> length s <= length i ->
  bidx_rev a (bidx_rev s i) = bidx_rev a i.
Proof.
  unfold fits_rev. revert s i. induction a as [|x a IH]; intros s i Hf Hl.
  - reflexivity.
  - destruct s as [|y s]; [discriminate|].
    destruct i as [|k i]; [simpl in Hl; lia|]. simpl in *.
    destruct (bdim x y) as [d|] eqn:Ed; [|discriminate].
    destruct (broadcast_rev a s) as [r|] eqn:Er; [|discriminate].
    injection Hf as -> ->. f_equal.
    + destruct (x =? 1) eqn:E1; [reflexivity|].
      destruct (y =? 1) eqn:E2; [|reflexivity].
      unfold bdim in Ed. rewrite E1, E2 in Ed.
      apply Nat.eqb_eq in E2. apply Nat.eqb_neq in E1. subst.
      destruct (x =? 1); injection Ed as ->; lia.
    + apply IH; [exact Er | lia].
Qed.

Lemma bidx_compose (a s i : list nat) :
  fits a s -> length s <= length i -> bidx a (bidx s i) = bidx a i.
Proof.
  intros Hf Hl. unfold bidx. rewrite rev_involutive. f_equal.
  apply bidx_rev_compose.
  - now apply fits_fits_rev.
  - now rewrite !length_rev.
Qed.

Lemma bidx_rev_id (s i : list nat) : Forall2 lt i s -> bidx_rev s i = i.
Proof.
  induction 1 as [|k n i s Hk _ IH]; simpl; [reflexivity|].
  rewrite IH. f_equal. destruct (n =? 1) eqn:E; [|reflexivity].
  apply Nat.eqb_eq in E. lia.
Qed.

Lemma bidx_id (s i : list nat) : valid i s -> bidx s i = i.
Proof.
  intros H. unfold bidx. rewrite bidx_rev_id by now apply Forall2_lt_rev.
  apply rev_involutive.
Qed.

Lemma bidx_nil (i : index) : bidx [] i = [].
Proof. reflexivity. Qed.

Lemma fits_length (a s : shape_t) : fits a s -> length a <= length s.
Proof.
  intros H. apply fits_fits_rev, fits_rev_length in H.
  now rewrite !length_rev in H.
Qed.

End ReadIndex.

(** ** The algorithm of [_apply] in closed form *)

Section ClosedForm.

Lemma get_square (t : tensor) (i : index) :
  get (tf.square t) i = (get t i ^ 2)%R.
Proof.
  unfold get, tf.square, tmap. simpl shape. simpl data.
  set (f := fun a : R => (a ^ 2)%R).
  change (nth (ravel (shape t) i) (map f (data t)) 0%R
          = f (nth (ravel (shape t) i) (data t) 0%R)).
  rewrite <- (map_nth f).
  replace (f 0%R) with 0%R; [reflexivity | unfold f; simpl; ring].
Qed.

Lemma pad_shape_right_with_ones_0 (t : tensor) :
  util.pad_shape_right_with_ones t 0 = t.
Proof.
  destruct t as [s d]. unfold util.pad_shape_right_with_ones. simpl.
  now rewrite app_nil_r.
Qed.

Lemma broadcast_op_mk_r (f : R -> R -> R) (a : tensor) (s1 s : shape_t)
    (g : index -> R) :
  broadcast_shape (shape a) s1 = Some s ->
  broadcast_op f a (mk s1 g) =
  Ok (mk s (fun i => f (get a (bidx (shape a) i)) (g (bidx s1 i)))).
Proof.
  intros H. unfold broadcast_op. rewrite shape_mk, H. f_equal.
  apply mk_ext. intros i Hi. f_equal. apply get_mk.
  apply bidx_valid with (s := s); [|exact Hi].
  now apply broadcast_shape_fits_r in H.
Qed.

Lemma broadcast_op_mk_l (f : R -> R -> R) (b : tensor) (s1 s : shape_t)
    (g : index -> R) :
  broadcast_shape s1 (shape b) = Some s ->
  broadcast_op f (mk s1 g) b =
  Ok (mk s (fun i => f (g (bidx s1 i)) (get b (bidx (shape b) i)))).
Proof.
  intros H. unfold broadcast_op. rewrite shape_mk, H. f_equal.
  apply mk_ext. intros i Hi. f_equal. apply get_mk.
  apply bidx_valid with (s := s); [|exact Hi].
  now apply broadcast_shape_fits_l in H.
Qed.

Lemma batch_feature_dims (n : nat) (s : shape_t) :
  Spec.batch_dims n s ++ Spec.feature_dims n s = s.
Proof. apply firstn_skipn. Qed.

(** The reduced squared difference of two inputs that broadcast to [sd]. *)
Lemma sum_squared_difference (x1 x2 : tensor) (sd : shape_t) (n : nat) :
  broadcast_shape (shape x1) (shape x2) = Some sd ->
  n <= length sd ->
  bind (tf.squared_difference x1 x2)
       (fun d => util.sum_rightmost_ndims_preserving_shape d n) =
  Ok (mk (Spec.batch_dims n sd)
         (Spec.sq_distance x1 x2 (Spec.feature_dims n sd))).
Proof.
  intros Hsd Hn. unfold tf.squared_difference, broadcast_op. rewrite Hsd.
  simpl. unfold util.sum_rightmost_ndims_preserving_shape, rank.
  rewrite shape_mk. apply Nat.leb_le in Hn. rewrite Hn. f_equal.
  apply mk_ext. intros b Hb. unfold Spec.sq_distance. f_equal.
  apply map_ext_in. intros j Hj. apply in_indices_valid in Hj.
  rewrite get_mk.
  - simpl. ring.
  - assert (Hv : valid (b ++ j) (Spec.batch_dims n sd ++ Spec.feature_dims n sd))
      by now apply valid_app.
    now rewrite batch_feature_dims in Hv.
Qed.

Lemma broadcast_op_none (f : R -> R -> R) (a b : tensor) :
  broadcast_shape (shape a) (shape b) = None ->
  broadcast_op f a b = Err ShapeError.
Proof. intros H. unfold broadcast_op. now rewrite H. Qed.

(** [_apply] computes the formula of the specification on the padded
    parameters, and fails exactly when the shapes do not fit. *)
Lemma _apply_closed (self : kernel) (x1 x2 : tensor) (k : nat) :
  _apply self x1 x2 k =
  Spec.kernel_apply
    (option_map (fun a => util.pad_shape_right_with_ones a k) (amplitude self))
    (option_map (fun l => util.pad_shape_right_with_ones l k) (length_scale self))
    (feature_ndims self) x1 x2.
Proof.
  destruct self as [a l n]. unfold _apply, Spec.kernel_apply. simpl.
  unfold tf.convert_to_tensor.
  destruct (broadcast_shape (shape x1) (shape x2)) as [sd|] eqn:Hsd.
  2: { unfold tf.squared_difference. now rewrite broadcast_op_none. }
  destruct (n <=? length sd) eqn:Hn.
  2: { unfold tf.squared_difference, broadcast_op. rewrite Hsd. simpl.
       unfold util.sum_rightmost_ndims_preserving_shape, rank.
       rewrite shape_mk. now rewrite Hn. }
  apply Nat.leb_le in Hn.
  pose proof (sum_squared_difference x1 x2 sd n Hsd Hn) as HS.
  unfold tf.squared_difference, broadcast_op in HS |- *.
  rewrite Hsd in HS |- *. cbn [bind] in HS |- *. rewrite HS. cbn [bind].
  unfold tf.scale, tf.exp. rewrite tmap_mk.
  unfold Spec.out_shape, tf.truediv, tf.multiply.
  destruct l as [l|]; cbn [option_map].
  - destruct (broadcast_shape (Spec.batch_dims n sd)
                (shape (util.pad_shape_right_with_ones l k))) as [s1|] eqn:H1.
    2: { rewrite broadcast_op_none; [reflexivity|]. now rewrite shape_mk. }
    rewrite (broadcast_op_mk_l Rdiv (tf.square (util.pad_shape_right_with_ones l k))
               _ _ _ H1). cbn [bind]. rewrite tmap_mk.
    destruct a as [a|]; cbn [option_map].
    + destruct (broadcast_shape (shape (util.pad_shape_right_with_ones a k)) s1)
        as [s|] eqn:H2.
      2: { rewrite broadcast_op_none; [reflexivity|]. now rewrite shape_mk. }
      rewrite (broadcast_op_mk_r _ _ _ _ _ H2). f_equal.
      apply mk_ext. intros i Hi. unfold Spec.kernel_value, Spec.exponent_of.
      assert (Hl : length s1 <= length i).
      { rewrite (valid_length _ _ Hi). apply fits_length.
        now apply broadcast_shape_fits_r in H2. }
      change (shape (tf.square (util.pad_shape_right_with_ones l k)))
        with (shape (util.pad_shape_right_with_ones l k)).
      rewrite (bidx_compose _ _ _ (broadcast_shape_fits_l _ _ _ H1) Hl).
      rewrite (bidx_compose _ _ _ (broadcast_shape_fits_r _ _ _ H1) Hl).
      now rewrite get_square.
    + f_equal. apply mk_ext. intros i Hi. unfold Spec.kernel_value, Spec.exponent_of.
      now rewrite get_square.
  - cbn [bind]. rewrite tmap_mk.
    destruct a as [a|]; cbn [option_map].
    + destruct (broadcast_shape (shape (util.pad_shape_right_with_ones a k))
                  (Spec.batch_dims n sd)) as [s|] eqn:H2.
      2: { rewrite broadcast_op_none; [reflexivity|]. now rewrite shape_mk. }
      rewrite (broadcast_op_mk_r _ _ _ _ _ H2). reflexivity.
    + f_equal. apply mk_ext. intros i Hi. unfold Spec.kernel_value, Spec.exponent_of.
      now rewrite (bidx_id _ _ Hi).
Qed.

(** [apply] on the parameters as they are. *)
Lemma apply_closed (self : kernel) (x1 x2 : tensor) :
  apply self x1 x2 =
  Spec.kernel_apply (amplitude self) (length_scale self) (feature_ndims self)
                    x1 x2.
Proof.
  unfold apply. rewrite _apply_closed.
  destruct self as [[a|] [l|] n]; simpl;
    now rewrite ?pad_shape_right_with_ones_0.
Qed.

End ClosedForm.

(** ** Sums of squared differences *)

Section Distances.






Lemma sq_distance_sym (x1 x2 : tensor) (fs : shape_t) (b : index) :
  Spec.sq_distance x1 x2 fs b = Spec.sq_distance x2 x1 fs b.
Proof.
  unfold Spec.sq_distance. f_equal. apply map_ext. intros j. ring.
Qed.


End Distances.

(** ** Properties of [apply] *)

Section Apply.

(** C1.  For inputs of rank at least [feature_ndims] whose shapes fit, the
    result of [apply] is, at every index, [amplitude * exp(-0.5 * S /
    length_scale^2)] with [S] the sum over the trailing [feature_ndims]
    dimensions of the squared per-coordinate differences; the division is
    skipped for an absent length scale, and the multiplication by the
    amplitude (which is not squared) for an absent amplitude. *)
Theorem apply_formula (self : kernel) (x1 x2 : tensor) (sd s : shape_t) :
  feature_ndims self <= rank x1 ->
  feature_ndims self <= rank x2 ->
  broadcast_shape (shape x1) (shape x2) = Some sd ->
  Spec.out_shape (amplitude self) (length_scale self) (feature_ndims self) sd
    = Some s ->
  exists r,
    apply self x1 x2 = Ok r /\ shape r = s /\
    forall i, valid i s ->
      get r i =
      Spec.kernel_value (amplitude self) (length_scale self)
                        (feature_ndims self) x1 x2 sd i.
Proof.
  intros Hr1 _ Hsd Hs. rewrite apply_closed. unfold Spec.kernel_apply.
  rewrite Hsd, Hs.
  assert (Hn : (feature_ndims self <=? length sd) = true).
  { apply Nat.leb_le. apply broadcast_shape_fits_l, fits_length in Hsd.
    unfold rank in Hr1. lia. }
  rewrite Hn. eexists. split; [reflexivity|]. split; [reflexivity|].
  intros i Hi. now apply get_mk.
Qed.

(** C5.  Symmetry: [apply(x, y)] and [apply(y, x)] are the same result. *)
Theorem apply_symmetric (self : kernel) (x y : tensor) :
  apply self x y = apply self y x.
Proof.
  rewrite !apply_closed. unfold Spec.kernel_apply.
  rewrite (broadcast_shape_comm (shape y) (shape x)).
  destruct (broadcast_shape (shape x) (shape y)) as [sd|]; [|reflexivity].
  destruct (feature_ndims self <=? length sd); [|reflexivity].
  destruct (Spec.out_shape _ _ _ sd) as [s|]; [|reflexivity].
  f_equal. apply mk_ext. intros i _. unfold Spec.kernel_value, Spec.exponent_of.
  now rewrite (sq_distance_sym x y).
Qed.



(** The shift has to fit the inputs: a shift that stretches a feature
    dimension of size 1 changes the number of coordinates that are summed,
    and the result with it. *)
Remark shift_that_stretches_a_feature_dimension :
  exists x1' x2',
    tf.add (Tensor [1] [0%R]) (Tensor [3] [0%R; 0%R; 0%R]) = Ok x1' /\
    tf.add (Tensor [1] [1%R]) (Tensor [3] [0%R; 0%R; 0%R]) = Ok x2' /\
    apply (Kernel None None 1) x1' x2'
    <> apply (Kernel None None 1) (Tensor [1] [0%R]) (Tensor [1] [1%R]).
Proof.
  do 2 eexists. split; [reflexivity|]. split; [reflexivity|].
  unfold apply, _apply, tf.squared_difference, broadcast_op. simpl.
  unfold Rsum, get. simpl.
  unfold tf.exp, tf.scale, tmap, mk. simpl.
  intros H. injection H as H. apply exp_inv in H. lra.
Qed.

End Apply.

(** ** Construction *)

Section Construction.

Lemma validate_disabled (arg : option tensor) (assertion : tensor -> result unit) :
  _validate_arg_if_not_none arg assertion false = Ok arg.
Proof. now destruct arg. Qed.

Lemma positive_true (x : R) : tf.positive x = true <-> (0 < x)%R.
Proof.
  unfold tf.positive. destruct (Rlt_dec 0 x); split; intros; auto; discriminate.
Qed.

Lemma assert_positive_ok (t : tensor) :
  Forall (fun x => (0 < x)%R) (data t) -> tf.assert_positive t = Ok tt.
Proof.
  intros H. unfold tf.assert_positive.
  replace (forallb tf.positive (data t)) with true; [reflexivity|].
  symmetry. apply forallb_forall. intros x Hx. apply positive_true.
  rewrite Forall_forall in H. now apply H.
Qed.

Lemma assert_positive_err (t : tensor) :
  (exists x, In x (data t) /\ (x <= 0)%R) ->
  tf.assert_positive t = Err ValidationError.
Proof.
  intros (x & Hx & Hle). unfold tf.assert_positive.
  destruct (forallb tf.positive (data t)) eqn:E; [|reflexivity].
  rewrite forallb_forall in E. apply E, positive_true in Hx. lra.
Qed.

Lemma validate_enabled_ok (arg : option tensor) :
  Spec.all_positive arg ->
  _validate_arg_if_not_none arg tf.assert_positive true = Ok arg.
Proof.
  destruct arg as [t|]; simpl; [|reflexivity].
  intros H. now rewrite assert_positive_ok.
Qed.

Lemma validate_enabled_err (arg : option tensor) :
  Spec.has_nonpositive arg ->
  _validate_arg_if_not_none arg tf.assert_positive true = Err ValidationError.
Proof.
  destruct arg as [t|]; simpl; [|contradiction].
  intros H. now rewrite assert_positive_err.
Qed.

(** A parameter is either absent, or all positive, or has a non-positive
    element. *)
Lemma positive_or_not (arg : option tensor) :
  Spec.all_positive arg \/ Spec.has_nonpositive arg.
Proof.
  destruct arg as [[s d]|]; simpl; [|now left].
  induction d as [|x d IH]; [left; constructor|].
  destruct (Rlt_dec 0 x) as [Hx|Hx].
  - destruct IH as [IH|(y & Hy & Hle)].
    + left. now constructor.
    + right. exists y. split; [now right | exact Hle].
  - right. exists x. split; [now left | lra].
Qed.

(** C2.  The batch shape of a kernel with exactly one parameter present:
    [_batch_shape] reads the attribute [shape] of the absent parameter and
    [_batch_shape_tensor] hands it to [tf.shape]; both raise. *)
Theorem batch_shape_absent_parameter (t : tensor) (n : nat) (name : string) :
  (k <- __init__ None (Some t) n false name ;; batch_shape k) = Err AttributeError /\
  (k <- __init__ (Some t) None n false name ;; batch_shape k) = Err AttributeError /\
  (k <- __init__ None (Some t) n false name ;; batch_shape_dynamic k) = Err ValueError /\
  (k <- __init__ (Some t) None n false name ;; batch_shape_dynamic k) = Err ValueError.
Proof. repeat split. Qed.

(** With both parameters present, the batch shape is the broadcast of
    their shapes. *)
Lemma batch_shape_both_present (a l : tensor) (n : nat) (s : shape_t) :
  broadcast_shape (shape a) (shape l) = Some s ->
  batch_shape (Kernel (Some a) (Some l) n) = Ok s /\
  batch_shape_dynamic (Kernel (Some a) (Some l) n) = Ok s.
Proof.
  intros H. unfold batch_shape, batch_shape_dynamic, _batch_shape,
    _batch_shape_tensor. simpl.
  unfold tf.broadcast_static_shape, tf.broadcast_dynamic_shape.
  now rewrite H.
Qed.

Lemma kernel_apply_amplitude_one (l : option tensor) (n : nat) (x1 x2 : tensor) :
  Spec.kernel_apply None l n x1 x2
  = Spec.kernel_apply (Some (scalar 1)) l n x1 x2.
Proof.
  unfold Spec.kernel_apply.
  destruct (broadcast_shape (shape x1) (shape x2)) as [sd|]; [|reflexivity].
  destruct (n <=? length sd); [|reflexivity].
  unfold Spec.out_shape.
  destruct (match l with
            | Some l0 => broadcast_shape (Spec.batch_dims n sd) (shape l0)
            | None => Some (Spec.batch_dims n sd)
            end) as [s1|]; [|reflexivity].
  simpl shape. rewrite broadcast_shape_nil_l. f_equal.
  apply mk_ext. intros i _. unfold Spec.kernel_value, Spec.exponent_of.
  rewrite bidx_nil. unfold get, scalar. simpl. ring.
Qed.

Lemma kernel_apply_length_scale_one (a : option tensor) (n : nat) (x1 x2 : tensor) :
  Spec.kernel_apply a None n x1 x2
  = Spec.kernel_apply a (Some (scalar 1)) n x1 x2.
Proof.
  unfold Spec.kernel_apply.
  destruct (broadcast_shape (shape x1) (shape x2)) as [sd|]; [|reflexivity].
  destruct (n <=? length sd); [|reflexivity].
  unfold Spec.out_shape. simpl shape. rewrite broadcast_shape_nil_r.
  destruct (match a with
            | Some a0 => broadcast_shape (shape a0) (Spec.batch_dims n sd)
            | None => Some (Spec.batch_dims n sd)
            end) as [s|]; [|reflexivity].
  f_equal. apply mk_ext. intros i _. unfold Spec.kernel_value, Spec.exponent_of.
  rewrite bidx_nil. unfold get, scalar. simpl.
  replace (-0.5 * Spec.sq_distance x1 x2 (Spec.feature_dims n sd)
                    (bidx (Spec.batch_dims n sd) i) / (1 * (1 * 1)))%R
    with (-0.5 * Spec.sq_distance x1 x2 (Spec.feature_dims n sd)
                    (bidx (Spec.batch_dims n sd) i))%R by field.
  reflexivity.
Qed.

(** C6.  Absent-parameter identity: a kernel constructed with
    [amplitude=None] gives the same [apply] result as one constructed with
    [amplitude=1], and one constructed with [length_scale=None] the same
    as one constructed with [length_scale=1], the other arguments being
    equal. *)
Theorem absent_parameter_identity (a l : option tensor) (n : nat) (v : bool)
    (name : string) (x1 x2 : tensor) :
  (k <- __init__ None l n v name ;; apply k x1 x2)
  = (k <- __init__ (Some (scalar 1)) l n v name ;; apply k x1 x2) /\
  (k <- __init__ a None n v name ;; apply k x1 x2)
  = (k <- __init__ a (Some (scalar 1)) n v name ;; apply k x1 x2).
Proof.
  assert (H1 : forall p, Spec.all_positive p ->
                 _validate_arg_if_not_none p tf.assert_positive v = Ok p).
  { intros p Hp. destruct v; [now apply validate_enabled_ok|apply validate_disabled]. }
  assert (Hone : Spec.all_positive (Some (scalar 1))).
  { repeat constructor. simpl. lra. }
  unfold __init__. split.
  - rewrite (H1 None I), (H1 _ Hone). simpl.
    destruct (_validate_arg_if_not_none l tf.assert_positive v) as [l'|e];
      simpl; [|reflexivity].
    rewrite !apply_closed. apply kernel_apply_amplitude_one.
  - rewrite (H1 None I), (H1 _ Hone).
    destruct (_validate_arg_if_not_none a tf.assert_positive v) as [a'|e];
      simpl; [|reflexivity].
    rewrite !apply_closed. apply kernel_apply_length_scale_one.
Qed.

End Construction.

(** ** Positive parameters *)

Section PositiveParameters.

Local Open Scope R_scope.

(** The indices at which the parameters are read are within their bounds. *)
Lemma out_shape_reads (a l : option tensor) (n : nat) (sd s : shape_t) (i : index) :
  Spec.out_shape a l n sd = Some s -> valid i s ->
  (forall a', a = Some a' -> valid (bidx (shape a') i) (shape a')) /\
  (forall l', l = Some l' -> valid (bidx (shape l') i) (shape l')).
Proof.
  unfold Spec.out_shape. intros Hs Hi.
  destruct l as [l0|].
  - destruct (broadcast_shape (Spec.batch_dims n sd) (shape l0)) as [s1|] eqn:H1;
      [|discriminate].
    destruct a as [a0|].
    + split; intros ? [= <-].
      * apply bidx_valid with (s := s); [|exact Hi].
        eapply broadcast_shape_fits_l; eauto.
      * assert (Hl : (length s1 <= length i)%nat).
        { rewrite (valid_length _ _ Hi).
          eapply fits_length, broadcast_shape_fits_r; eauto. }
        rewrite <- (bidx_compose _ s1 _ (broadcast_shape_fits_r _ _ _ H1) Hl).
        apply bidx_valid with (s := s1); [eapply broadcast_shape_fits_r; eauto|].
        apply bidx_valid with (s := s); [|exact Hi].
        eapply broadcast_shape_fits_r; eauto.
    + injection Hs as ->. split; intros ? [= <-].
      apply bidx_valid with (s := s); [|exact Hi].
      eapply broadcast_shape_fits_r; eauto.
  - destruct a as [a0|].
    + split; intros ? [= <-].
      apply bidx_valid with (s := s); [|exact Hi].
      eapply broadcast_shape_fits_l; eauto.
    + split; intros ? [=].
Qed.

Lemma kernel_apply_ok (a l : option tensor) (n : nat) (x1 x2 : tensor)
    (sd s : shape_t) :
  broadcast_shape (shape x1) (shape x2) = Some sd ->
  (n <= length sd)%nat ->
  Spec.out_shape a l n sd = Some s ->
  Spec.kernel_apply a l n x1 x2 = Ok (mk s (Spec.kernel_value a l n x1 x2 sd)).
Proof.
  intros Hsd Hn Hs. unfold Spec.kernel_apply. rewrite Hsd, Hs.
  apply Nat.leb_le in Hn. now rewrite Hn.
Qed.







End PositiveParameters.

(** ** The all-pairs grid of [matrix] *)

Section Matrix.

Lemma bdim_1_l (q : nat) : bdim 1 q = Some q.
Proof.
  unfold bdim. destruct (1 =? q) eqn:E; [|reflexivity].
  apply Nat.eqb_eq in E. now subst.
Qed.

Lemma bdim_1_r (p : nat) : bdim p 1 = Some p.
Proof. rewrite bdim_comm. apply bdim_1_l. Qed.

(** Parameters padded with two trailing ones broadcast against a shape
    that ends in the two example axes. *)
Lemma broadcast_shape_pad2 (A S1 : shape_t) (p q : nat) :
  broadcast_shape (A ++ [1; 1]) (S1 ++ [p; q])
  = option_map (fun r => r ++ [p; q]) (broadcast_shape A S1).
Proof.
  unfold broadcast_shape. rewrite !rev_app_distr. simpl.
  rewrite !bdim_1_l.
  destruct (broadcast_rev (rev A) (rev S1)) as [r|]; simpl; [|reflexivity].
  now rewrite <- app_assoc.
Qed.

Lemma bidx_pad2 (L b : list nat) (i j : nat) :
  bidx (L ++ [1; 1]) (b ++ [i; j]) = bidx L b ++ [0; 0].
Proof.
  unfold bidx. rewrite !rev_app_distr. simpl. now rewrite <- app_assoc.
Qed.

Lemma bidx_pair (p q i j : nat) (b : list nat) :
  i < p -> j < q -> bidx [p; q] (b ++ [i; j]) = [i; j].
Proof.
  intros Hi Hj. unfold bidx. rewrite rev_app_distr. simpl.
  destruct (rev b); simpl;
    destruct (p =? 1) eqn:Ep, (q =? 1) eqn:Eq; simpl;
    try apply Nat.eqb_eq in Ep; try apply Nat.eqb_eq in Eq;
    repeat f_equal; lia.
Qed.

Lemma size_pad2 (s : shape_t) : size (s ++ [1; 1]) = size s.
Proof. induction s as [|n s IH]; simpl; [reflexivity|]. now rewrite IH. Qed.

Lemma ravel_pad2 (s i : list nat) :
  length i = length s -> ravel (s ++ [1; 1]) (i ++ [0; 0]) = ravel s i.
Proof.
  revert i. induction s as [|n s IH]; intros [|k i] H; simpl in *;
    try discriminate; [reflexivity|].
  rewrite size_pad2, IH by lia. reflexivity.
Qed.

Lemma get_pad2 (t : tensor) (i : index) :
  length i = length (shape t) ->
  get (util.pad_shape_right_with_ones t 2) (i ++ [0; 0]) = get t i.
Proof.
  intros H. unfold get, util.pad_shape_right_with_ones. simpl.
  now rewrite ravel_pad2.
Qed.

(** Reading a padded parameter on the grid is reading the parameter. *)
Lemma get_pad2_bidx (t : tensor) (b : index) (i j : nat) :
  valid (bidx (shape t) b) (shape t) ->
  get (util.pad_shape_right_with_ones t 2)
      (bidx (shape (util.pad_shape_right_with_ones t 2)) (b ++ [i; j]))
  = get t (bidx (shape t) b).
Proof.
  intros H. simpl shape. rewrite bidx_pad2. apply get_pad2.
  now apply valid_length.
Qed.

Lemma out_shape_pad2 (a l : option tensor) (p q D : nat) (B : shape_t) :
  Spec.out_shape a l 1 [D] = Some B ->
  Spec.out_shape
    (option_map (fun t => util.pad_shape_right_with_ones t 2) a)
    (option_map (fun t => util.pad_shape_right_with_ones t 2) l)
    1 [p; q; D]
  = Some (B ++ [p; q]).
Proof.
  unfold Spec.out_shape, Spec.batch_dims. simpl firstn.
  assert (Hl : forall t, broadcast_shape [p; q] (shape t ++ [1; 1])
                         = Some (shape t ++ [p; q])).
  { intros t. rewrite broadcast_shape_comm.
    etransitivity; [exact (broadcast_shape_pad2 (shape t) [] p q)|].
    now rewrite broadcast_shape_nil_r. }
  destruct l as [l|], a as [a|];
    cbn [option_map shape util.pad_shape_right_with_ones repeat].
  - rewrite broadcast_shape_nil_l, Hl, broadcast_shape_pad2.
    now intros ->.
  - rewrite broadcast_shape_nil_l, Hl. now intros [= <-].
  - intros H. etransitivity; [exact (broadcast_shape_pad2 (shape a) [] p q)|].
    now rewrite H.
  - now intros [= <-].
Qed.

Lemma clamp_lt (d k : nat) : k < d -> (if d =? 1 then 0 else k) = k.
Proof.
  intros H. destruct (d =? 1) eqn:E; [|reflexivity].
  apply Nat.eqb_eq in E. lia.
Qed.

(** The squared distance at grid position [(i, j)] of the expanded inputs
    is the squared distance of the [i]-th and the [j]-th example. *)
Lemma sq_distance_grid (d1 d2 : list R) (p q D i j : nat) :
  i < p -> j < q ->
  Spec.sq_distance (Tensor [p; 1; D] d1)
                   (Tensor [1; q; D] d2) [D] [i; j]
  = Spec.sq_distance
      (Tensor [D] (firstn (size [D]) (skipn (i * size [D]) d1)))
      (Tensor [D] (firstn (size [D]) (skipn (j * size [D]) d2))) [D] [].
Proof.
  intros Hi Hj. unfold Spec.sq_distance. f_equal.
  apply map_ext_in. intros jj Hjj. apply in_indices_valid in Hjj.
  inversion Hjj as [|c ? t ? Hc Ht]; subst. inversion Ht; subst.
  unfold get, bidx. simpl.
  rewrite !(clamp_lt D c Hc), (clamp_lt p i Hi), (clamp_lt q j Hj).
  rewrite !nth_firstn, !nth_skipn.
  replace (c * 1 + 0 <? D * 1)%nat with true
    by (symmetry; apply Nat.ltb_lt; lia).
  repeat match goal with
         | |- context [nth ?k d1 0%R] =>
             lazymatch k with
             | (i * D + c)%nat => fail
             | _ => replace k with (i * D + c)%nat by lia
             end
         | |- context [nth ?k d2 0%R] =>
             lazymatch k with
             | (j * D + c)%nat => fail
             | _ => replace k with (j * D + c)%nat by lia
             end
         end.
  reflexivity.
Qed.

Lemma kernel_value_grid (a l : option tensor) (d1 d2 : list R)
    (p q D i j : nat) (b : index) (B : shape_t) :
  Spec.out_shape a l 1 [D] = Some B -> valid b B -> i < p -> j < q ->
  Spec.kernel_value
    (option_map (fun t => util.pad_shape_right_with_ones t 2) a)
    (option_map (fun t => util.pad_shape_right_with_ones t 2) l)
    1 (Tensor [p; 1; D] d1)
    (Tensor [1; q; D] d2) [p; q; D] (b ++ [i; j])
  = Spec.kernel_value a l 1
      (Tensor [D] (firstn (size [D]) (skipn (i * size [D]) d1)))
      (Tensor [D] (firstn (size [D]) (skipn (j * size [D]) d2))) [D] b.
Proof.
  intros HB Hb Hi Hj.
  destruct (out_shape_reads _ _ _ _ _ b HB Hb) as [Ra Rl].
  unfold Spec.kernel_value, Spec.exponent_of, Spec.batch_dims, Spec.feature_dims.
  cbn [length Nat.sub firstn skipn].
  rewrite (bidx_pair p q i j b Hi Hj), bidx_nil, sq_distance_grid by assumption.
  destruct l as [l|], a as [a|]; cbn [option_map];
    rewrite ?get_pad2_bidx by auto; reflexivity.
Qed.

(** [matrix] on inputs of [p] and of [q] examples, for parameters of batch
    shape [B]: the result has shape [B ++ [p; q]] and its entries are the
    values of [apply] on the pairs of examples. *)
Lemma matrix_entries (a l : option tensor) (d1 d2 : list R) (p q D : nat)
    (B : shape_t) :
  Spec.out_shape a l 1 [D] = Some B ->
  exists m,
    matrix (Kernel a l 1) (Tensor [p; D] d1) (Tensor [q; D] d2) = Ok m /\
    shape m = B ++ [p; q] /\
    forall i j, i < p -> j < q ->
      exists xi xj r,
        tf.item (Tensor [p; D] d1) i = Ok xi /\
        tf.item (Tensor [q; D] d2) j = Ok xj /\
        apply (Kernel a l 1) xi xj = Ok r /\ shape r = B /\
        forall b, valid b B -> get m (b ++ [i; j]) = get r b.
Proof.
  intros HB. unfold matrix, tf.expand_dims_neg, rank.
  cbn [feature_ndims shape data length Nat.add Nat.sub Nat.leb Nat.eqb
       firstn skipn app bind].
  rewrite _apply_closed.
  cbn [amplitude length_scale feature_ndims].
  rewrite (kernel_apply_ok _ _ _ _ _ [p; q; D] (B ++ [p; q])).
  - eexists. split; [reflexivity|]. split; [reflexivity|].
    intros i j Hi Hj. unfold tf.item. cbn [shape data].
    apply Nat.ltb_lt in Hi, Hj. rewrite Hi, Hj.
    apply Nat.ltb_lt in Hi, Hj.
    do 3 eexists. split; [reflexivity|]. split; [reflexivity|].
    rewrite apply_closed. cbn [amplitude length_scale feature_ndims].
    rewrite (kernel_apply_ok _ _ _ _ _ [D] B);
      [|apply broadcast_shape_refl|simpl; lia|exact HB].
    split; [reflexivity|]. split; [reflexivity|].
    intros b Hb. rewrite !get_mk.
    + now apply kernel_value_grid with (B := B).
    + exact Hb.
    + apply valid_app; [exact Hb|]. repeat constructor; assumption.
  - unfold broadcast_shape. simpl.
    now rewrite bdim_refl, bdim_1_l, bdim_1_r.
  - simpl. lia.
  - now apply out_shape_pad2.
Qed.

(** C8.  Matrix evaluation agrees pointwise with pairwise evaluation.  For
    [x1] of shape [[5, D]], [x2] of shape [[7, D]] and [feature_ndims = 1],
    and parameters of batch shape [B] (the empty shape for scalar or
    absent parameters), [matrix(x1, x2)] has shape [B ++ [5, 7]], that is
    [[5, 7]] for scalar parameters, and its entry at [(i, j)] is
    [apply(x1[i], x2[j])]. *)
Theorem matrix_agrees_with_apply (self : kernel) (x1 x2 : tensor) (D : nat)
    (B : shape_t) :
  feature_ndims self = 1 ->
  shape x1 = [5; D] -> shape x2 = [7; D] ->
  Spec.out_shape (amplitude self) (length_scale self) 1 [D] = Some B ->
  exists m,
    matrix self x1 x2 = Ok m /\ shape m = B ++ [5; 7] /\
    forall i j, i < 5 -> j < 7 ->
      exists xi xj r,
        tf.item x1 i = Ok xi /\ tf.item x2 j = Ok xj /\
        apply self xi xj = Ok r /\ shape r = B /\
        forall b, valid b B -> get m (b ++ [i; j]) = get r b.
Proof.
  destruct self as [a l n], x1 as [s1 d1], x2 as [s2 d2]. simpl.
  intros -> -> -> HB. now apply matrix_entries.
Qed.

End Matrix.

(** ** Concrete runs *)

Section Examples.

Import Inputs.
Local Open Scope R_scope.
Local Open Scope string_scope.

Lemma apply_formula_witness :
  exists r,
    apply k21 v123 v124 = Ok r /\ shape r = [] /\
    forall i, valid i [] ->
      get r i =
      Spec.kernel_value (amplitude k21) (length_scale k21) (feature_ndims k21)
                        v123 v124 [3%nat] i.
Proof.
  apply (apply_formula k21 v123 v124 [3%nat] []).
  - vm_compute. lia.
  - vm_compute. lia.
  - reflexivity.
  - reflexivity.
Defined.



Lemma two_positive : Forall (fun x => 0 < x) [2].
Proof. repeat constructor. lra. Qed.

Lemma one_positive : Forall (fun x => 0 < x) [1].
Proof. repeat constructor. lra. Qed.




Lemma matrix_agrees_with_apply_witness :
  exists m,
    matrix k21 x5 x7 = Ok m /\ shape m = [5%nat; 7%nat] /\
    forall i j, (i < 5)%nat -> (j < 7)%nat ->
      exists xi xj r,
        tf.item x5 i = Ok xi /\ tf.item x7 j = Ok xj /\
        apply k21 xi xj = Ok r /\ shape r = [] /\
        forall b, valid b [] -> get m (b ++ [i; j]) = get r b.
Proof.
  apply (matrix_agrees_with_apply k21 x5 x7 1 []).
  - reflexivity.
  - reflexivity.
  - reflexivity.
  - reflexivity.
Defined.

(** The example of the specification: an amplitude of shape [[3]] and a
    scalar length scale have batch shape [[3]]. *)
Example batch_shape_example :
  batch_shape (Kernel (Some (Tensor [3%nat] [1; 2; 3])) (Some (scalar 1)) 1)
  = Ok [3%nat].
Proof. reflexivity. Qed.

(** The default construction, both parameters absent, has no batch shape
    to ask for. *)
Example batch_shape_default :
  (k <- __init__ None None 1 false "ExponentiatedQuadratic" ;; batch_shape k)
  = Err AttributeError.
Proof. reflexivity. Qed.

End Examples.

(** * Further properties of the code *)

(** ** Validation and construction *)

Section MoreConstruction.

Lemma validate_ok_is_argument (arg r : option tensor)
    (assertion : tensor -> result unit) (v : bool) :
  _validate_arg_if_not_none arg assertion v = Ok r -> r = arg.
Proof.
  unfold _validate_arg_if_not_none. destruct arg as [t|]; [|now intros [= <-]].
  destruct (tf.control_dependencies _); simpl; [now intros [= <-]|discriminate].
Qed.

(** X1.  [_validate_arg_if_not_none], for any assertion: a successful
    result is the argument itself, and a failure is the failure of the
    assertion on a present argument, with [validate_args] set. *)
Theorem validate_arg_outcome (arg : option tensor)
    (assertion : tensor -> result unit) (validate_args : bool) :
  (forall r, _validate_arg_if_not_none arg assertion validate_args = Ok r ->
             r = arg) /\
  (forall e, _validate_arg_if_not_none arg assertion validate_args = Err e ->
             validate_args = true /\
             exists t, arg = Some t /\ assertion t = Err e).
Proof.
  unfold _validate_arg_if_not_none. destruct arg as [t|].
  - destruct validate_args; simpl.
    + destruct (assertion t) as [u|e'] eqn:E; simpl; split.
      * now intros r [= <-].
      * discriminate.
      * discriminate.
      * intros e [= <-]. split; [reflexivity|]. now exists t.
    + split; [now intros r [= <-] | discriminate].
  - split; [now intros r [= <-] | discriminate].
Qed.

(** X2.  Whenever construction succeeds, with or without [validate_args],
    the properties [amplitude] and [length_scale] return the arguments as
    given and [feature_ndims] the given number. *)
Theorem init_keeps_arguments (a l : option tensor) (n : nat) (v : bool)
    (name : string) (k : kernel) :
  __init__ a l n v name = Ok k ->
  amplitude k = a /\ length_scale k = l /\ feature_ndims k = n.
Proof.
  unfold __init__. intros H.
  destruct (_validate_arg_if_not_none a tf.assert_positive v) as [a'|] eqn:Ea;
    [|discriminate].
  destruct (_validate_arg_if_not_none l tf.assert_positive v) as [l'|] eqn:El;
    [|discriminate].
  simpl in H. injection H as <-.
  apply validate_ok_is_argument in Ea as Ha.
  apply validate_ok_is_argument in El as Hl.
  subst a' l'. simpl. repeat split.
Qed.

(** X3.  The batch shape exists exactly when both parameters are present
    and their shapes broadcast, and it is then that broadcast; the static
    and the dynamic method succeed on the same kernels with the same
    shape. *)
Theorem batch_shape_succeeds_iff (k : kernel) (s : shape_t) :
  (batch_shape k = Ok s <->
   exists a l, amplitude k = Some a /\ length_scale k = Some l /\
               broadcast_shape (shape a) (shape l) = Some s) /\
  (batch_shape_dynamic k = Ok s <-> batch_shape k = Ok s).
Proof.
  destruct k as [[a|] [l|] n];
    unfold batch_shape, batch_shape_dynamic, _batch_shape, _batch_shape_tensor,
      tf.broadcast_static_shape, tf.broadcast_dynamic_shape; simpl;
    (split; [split|]);
    try discriminate;
    try (intros (a' & l' & Ha & Hl & _); discriminate);
    try (split; discriminate).
  - destruct (broadcast_shape (shape a) (shape l)) as [s'|] eqn:E;
      [|discriminate].
    intros [= <-]. now exists a, l.
  - intros (a' & l' & [= <-] & [= <-] & ->). reflexivity.
  - reflexivity.
Qed.

End MoreConstruction.

(** ** Broadcasting three shapes *)

Section BroadcastAssoc.

Lemma bdim_assoc (x y z : nat) :
  match bdim y z with Some d => bdim x d | None => None end
  = match bdim x y with Some d => bdim d z | None => None end.
Proof.
  unfold bdim.
  repeat (match goal with
          | |- context [?a =? ?b] => destruct (Nat.eqb_spec a b)
          end; subst; cbv beta iota; try reflexivity; try congruence;
          try (exfalso; lia); try (f_equal; lia)).
Qed.

Lemma broadcast_rev_nil_r (a : shape_t) : broadcast_rev a [] = Some a.
Proof. now destruct a. Qed.

Lemma broadcast_rev_assoc (a b c : shape_t) :
  match broadcast_rev b c with Some r => broadcast_rev a r | None => None end
  = match broadcast_rev a b with Some r => broadcast_rev r c | None => None end.
Proof.
  revert b c. induction a as [|x a IH]; intros b c.
  - simpl. now destruct (broadcast_rev b c).
  - destruct b as [|y b].
    + simpl. reflexivity.
    + destruct c as [|z c].
      * simpl. destruct (bdim x y), (broadcast_rev a b); reflexivity.
      * simpl. specialize (IH b c). pose proof (bdim_assoc x y z) as Hd.
        destruct (bdim y z) as [d1|], (broadcast_rev b c) as [r1|],
                 (bdim x y) as [d2|], (broadcast_rev a b) as [r2|];
          simpl in *; rewrite ?Hd, ?IH; try reflexivity;
          try (rewrite <- Hd); try (rewrite <- IH);
          repeat match goal with
                 | |- context [match ?t with Some _ => _ | None => _ end] =>
                     destruct t
                 end; reflexivity.
Qed.

Lemma broadcast_shape_assoc (a b c : shape_t) :
  match broadcast_shape b c with Some r => broadcast_shape a r | None => None end
  = match broadcast_shape a b with Some r => broadcast_shape r c | None => None end.
Proof.
  unfold broadcast_shape. pose proof (broadcast_rev_assoc (rev a) (rev b) (rev c)) as H.
  destruct (broadcast_rev (rev b) (rev c)) as [r1|],
           (broadcast_rev (rev a) (rev b)) as [r2|]; simpl;
    rewrite ?rev_involutive;
    first [reflexivity | now rewrite H | now rewrite <- H].
Qed.

End BroadcastAssoc.

(** ** The shape of the result and the inputs it accepts *)

Section ResultShape.

Lemma kernel_apply_inv (a l : option tensor) (n : nat) (x1 x2 r : tensor) :
  Spec.kernel_apply a l n x1 x2 = Ok r ->
  exists sd s,
    broadcast_shape (shape x1) (shape x2) = Some sd /\ n <= length sd /\
    Spec.out_shape a l n sd = Some s /\
    r = mk s (Spec.kernel_value a l n x1 x2 sd).
Proof.
  unfold Spec.kernel_apply.
  destruct (broadcast_shape (shape x1) (shape x2)) as [sd|]; [|discriminate].
  destruct (n <=? length sd) eqn:Hn; [|discriminate].
  destruct (Spec.out_shape a l n sd) as [s|] eqn:Hs; [|discriminate].
  intros [= <-]. exists sd, s. apply Nat.leb_le in Hn.
  split; [reflexivity|]. split; [exact Hn|]. split; [exact Hs|reflexivity].
Qed.

(** The result shape of a kernel with both parameters, through the
    broadcast of the two parameter shapes. *)
Lemma out_shape_both (a l : tensor) (n : nat) (sd : shape_t) :
  Spec.out_shape (Some a) (Some l) n sd
  = match broadcast_shape (shape a) (shape l) with
    | Some B => broadcast_shape B (Spec.batch_dims n sd)
    | None => None
    end.
Proof.
  unfold Spec.out_shape.
  rewrite (broadcast_shape_comm (Spec.batch_dims n sd) (shape l)).
  apply broadcast_shape_assoc.
Qed.

(** X4.  For a kernel with both parameters present, [apply] succeeds with a
    result of shape [s] exactly when the batch shape exists, the inputs
    broadcast to a shape of rank at least [feature_ndims], and [s] is the
    broadcast of the batch shape with the batch dimensions of the inputs. *)
Theorem result_shape_from_batch_shape (k : kernel) (a l x1 x2 : tensor)
    (s : shape_t) :
  amplitude k = Some a -> length_scale k = Some l ->
  (exists r, apply k x1 x2 = Ok r /\ shape r = s) <->
  (exists B sd,
     batch_shape k = Ok B /\
     broadcast_shape (shape x1) (shape x2) = Some sd /\
     feature_ndims k <= length sd /\
     broadcast_shape B (Spec.batch_dims (feature_ndims k) sd) = Some s).
Proof.
  destruct k as [a' l' n]. simpl. intros -> ->.
  unfold batch_shape, _batch_shape, tf.broadcast_static_shape. simpl.
  rewrite apply_closed. simpl. split.
  - intros (r & Hr & <-).
    apply kernel_apply_inv in Hr as (sd & s & Hsd & Hn & Hs & ->).
    rewrite out_shape_both in Hs.
    destruct (broadcast_shape (shape a) (shape l)) as [B|]; [|discriminate].
    exists B, sd. auto.
  - intros (B & sd & HB & Hsd & Hn & Hs).
    destruct (broadcast_shape (shape a) (shape l)) as [B'|] eqn:E;
      [|discriminate].
    injection HB as ->.
    rewrite (kernel_apply_ok _ _ _ _ _ sd s Hsd Hn).
    + eexists. split; reflexivity.
    + rewrite out_shape_both, E. exact Hs.
Qed.

(** X5.  The inputs are broadcast against each other, feature dimensions
    included: [apply] on two inputs is [apply] on the two inputs stretched
    to their common shape. *)
Theorem apply_broadcasts_inputs (k : kernel) (x1 x2 : tensor) (sd : shape_t) :
  broadcast_shape (shape x1) (shape x2) = Some sd ->
  apply k x1 x2 = apply k (Spec.broadcast_to x1 sd) (Spec.broadcast_to x2 sd).
Proof.
  intros Hsd. unfold apply, _apply, tf.convert_to_tensor.
  replace (tf.squared_difference (Spec.broadcast_to x1 sd) (Spec.broadcast_to x2 sd))
    with (tf.squared_difference x1 x2); [reflexivity|].
  unfold tf.squared_difference, broadcast_op, Spec.broadcast_to.
  rewrite !shape_mk, Hsd, broadcast_shape_refl. f_equal.
  apply mk_ext. intros i Hi.
  now rewrite (bidx_id _ _ Hi), !get_mk.
Qed.

End ResultShape.

(** ** How the result depends on the parameters *)

Section ParameterAlgebra.

Local Open Scope R_scope.

Lemma get_scale (c : R) (t : tensor) (i : index) :
  get (tf.scale c t) i = c * get t i.
Proof.
  unfold get, tf.scale, tmap. cbn [shape data].
  rewrite <- (map_nth (Rmult c)).
  replace (c * 0) with 0 by ring. reflexivity.
Qed.

(** Two evaluations with the same shapes and the same values. *)
Lemma kernel_apply_ext (a l a' l' : option tensor) (n : nat)
    (x1 x2 x1' x2' : tensor) :
  shape x1' = shape x1 -> shape x2' = shape x2 ->
  (forall sd, Spec.out_shape a' l' n sd = Spec.out_shape a l n sd) ->
  (forall sd s i,
      Spec.out_shape a l n sd = Some s -> valid i s ->
      Spec.kernel_value a' l' n x1' x2' sd i
      = Spec.kernel_value a l n x1 x2 sd i) ->
  Spec.kernel_apply a' l' n x1' x2' = Spec.kernel_apply a l n x1 x2.
Proof.
  intros H1 H2 Hs Hv. unfold Spec.kernel_apply. rewrite H1, H2.
  destruct (broadcast_shape (shape x1) (shape x2)) as [sd|]; [|reflexivity].
  destruct (n <=? length sd); [|reflexivity].
  rewrite Hs.
  destruct (Spec.out_shape a l n sd) as [s|] eqn:E; [|reflexivity].
  f_equal. apply mk_ext. intros i Hi. now apply Hv with (s := s).
Qed.

(** X6.  Only the square of the length scale enters: a length scale and
    its negation give the same result. *)
Theorem length_scale_sign_is_irrelevant (a : option tensor) (l : tensor)
    (n : nat) (x1 x2 : tensor) :
  apply (Kernel a (Some (tf.scale (-1) l)) n) x1 x2
  = apply (Kernel a (Some l) n) x1 x2.
Proof.
  rewrite !apply_closed. cbn [amplitude length_scale feature_ndims].
  apply kernel_apply_ext; try reflexivity.
  intros sd s i _ _. unfold Spec.kernel_value, Spec.exponent_of.
  rewrite get_scale. change (shape (tf.scale (-1) l)) with (shape l).
  replace ((-1 * get l (bidx (shape l) i)) ^ 2)
    with (get l (bidx (shape l) i) ^ 2) by ring.
  reflexivity.
Qed.

End ParameterAlgebra.

(** ** A leading batch axis *)

Section LeadingAxis.

Lemma broadcast_rev_snoc (a b : shape_t) (x y : nat) :
  length a = length b ->
  broadcast_rev (a ++ [x]) (b ++ [y])
  = match broadcast_rev a b, bdim x y with
    | Some r, Some d => Some (r ++ [d])
    | _, _ => None
    end.
Proof.
  revert b. induction a as [|u a IH]; intros [|v b] H; simpl in H;
    try discriminate.
  - simpl. now destruct (bdim x y).
  - simpl. rewrite IH by lia.
    destruct (bdim u v), (broadcast_rev a b), (bdim x y); reflexivity.
Qed.

Lemma broadcast_shape_cons (a b : shape_t) (x y : nat) :
  length a = length b ->
  broadcast_shape (x :: a) (y :: b)
  = match bdim x y, broadcast_shape a b with
    | Some d, Some r => Some (d :: r)
    | _, _ => None
    end.
Proof.
  intros H. unfold broadcast_shape. simpl rev.
  rewrite broadcast_rev_snoc by now rewrite !length_rev.
  destruct (broadcast_rev (rev a) (rev b)) as [r|], (bdim x y) as [d|];
    simpl; try reflexivity.
  now rewrite rev_app_distr.
Qed.

Lemma broadcast_rev_length (a b s : shape_t) :
  broadcast_rev a b = Some s -> length s = Nat.max (length a) (length b).
Proof.
  revert b s. induction a as [|x a IH]; intros b s.
  - simpl. now intros [= <-].
  - destruct b as [|y b]; simpl.
    + now intros [= <-].
    + destruct (bdim x y); [|discriminate].
      destruct (broadcast_rev a b) as [r|] eqn:E; [|discriminate].
      intros [= <-]. simpl. now rewrite (IH _ _ E).
Qed.

Lemma broadcast_shape_length (a b s : shape_t) :
  broadcast_shape a b = Some s -> length s = Nat.max (length a) (length b).
Proof.
  unfold broadcast_shape.
  destruct (broadcast_rev (rev a) (rev b)) as [r|] eqn:E; [|discriminate].
  intros [= <-]. rewrite length_rev, (broadcast_rev_length _ _ _ E).
  now rewrite !length_rev.
Qed.

Lemma bidx_rev_snoc (s j : list nat) (d k : nat) :
  length j = length s ->
  bidx_rev (s ++ [d]) (j ++ [k]) = bidx_rev s j ++ [if d =? 1 then 0 else k].
Proof.
  revert j. induction s as [|n s IH]; intros [|q j] H; simpl in H;
    try discriminate; [reflexivity|].
  simpl. now rewrite IH by lia.
Qed.

Lemma bidx_cons (s j : list nat) (d k : nat) :
  length j = length s ->
  bidx (d :: s) (k :: j) = (if d =? 1 then 0 else k) :: bidx s j.
Proof.
  intros H. unfold bidx. simpl rev.
  rewrite bidx_rev_snoc by now rewrite !length_rev.
  now rewrite rev_app_distr.
Qed.

(** Reading the [i]-th slice is reading the tensor at [i :: q]. *)
Lemma get_item (d : list R) (m i : nat) (s q : list nat) :
  valid q s ->
  get (Tensor s (firstn (size s) (skipn (i * size s) d))) q
  = get (Tensor (m :: s) d) (i :: q).
Proof.
  intros Hq. unfold get. cbn [shape data ravel].
  rewrite nth_firstn, nth_skipn.
  apply ravel_lt in Hq. apply Nat.ltb_lt in Hq. now rewrite Hq.
Qed.

Lemma batch_dims_cons (n m : nat) (s : shape_t) :
  n <= length s -> Spec.batch_dims n (m :: s) = m :: Spec.batch_dims n s.
Proof.
  intros H. unfold Spec.batch_dims. cbn [length].
  now rewrite Nat.sub_succ_l by exact H.
Qed.

Lemma feature_dims_cons (n m : nat) (s : shape_t) :
  n <= length s -> Spec.feature_dims n (m :: s) = Spec.feature_dims n s.
Proof.
  intros H. unfold Spec.feature_dims. cbn [length].
  now rewrite Nat.sub_succ_l by exact H.
Qed.

(** Scalar or absent parameters leave the batch dimensions as they are. *)
Lemma out_shape_scalar (a l : option tensor) (n : nat) (sd : shape_t) :
  scalar_or_absent a -> scalar_or_absent l ->
  Spec.out_shape a l n sd = Some (Spec.batch_dims n sd).
Proof.
  unfold Spec.out_shape. destruct a as [a|], l as [l|]; simpl;
    intros Ha Hl; rewrite ?Ha, ?Hl, ?broadcast_shape_nil_r,
      ?broadcast_shape_nil_l; reflexivity.
Qed.

Lemma exponent_of_scalar (l : option tensor) (i j : index) (S : R) :
  scalar_or_absent l -> Spec.exponent_of l i S = Spec.exponent_of l j S.
Proof.
  unfold Spec.exponent_of. destruct l as [l|]; simpl; [|reflexivity].
  intros ->. reflexivity.
Qed.

Lemma sq_distance_item (d1 d2 : list R) (m i n : nat) (s1 s2 sd : shape_t)
    (j : index) :
  length s1 = length s2 -> broadcast_shape s1 s2 = Some sd ->
  n <= length sd -> i < m -> valid j (Spec.batch_dims n sd) ->
  Spec.sq_distance (Tensor (m :: s1) d1) (Tensor (m :: s2) d2)
                   (Spec.feature_dims n sd) (i :: j)
  = Spec.sq_distance
      (Tensor s1 (firstn (size s1) (skipn (i * size s1) d1)))
      (Tensor s2 (firstn (size s2) (skipn (i * size s2) d2)))
      (Spec.feature_dims n sd) j.
Proof.
  intros Hlen Hsd Hn Hi Hj. unfold Spec.sq_distance. f_equal.
  apply map_ext_in. intros f Hf. apply in_indices_valid in Hf.
  assert (Hq : valid (j ++ f) sd).
  { rewrite <- (batch_feature_dims n sd). now apply valid_app. }
  pose proof (broadcast_shape_length _ _ _ Hsd) as Hl.
  pose proof (valid_length _ _ Hq) as Hlq.
  cbn [shape app].
  rewrite !bidx_cons by lia. rewrite !(clamp_lt m i Hi).
  rewrite <- !get_item with (m := m); [reflexivity| |].
  - apply bidx_valid with (s := sd); [|exact Hq].
    now apply broadcast_shape_fits_r in Hsd.
  - apply bidx_valid with (s := sd); [|exact Hq].
    now apply broadcast_shape_fits_l in Hsd.
Qed.

(** X11.  [apply] works example by example.  For two inputs with the same
    leading axis of [m] examples and scalar or absent parameters, the
    result has that leading axis, and its [i]-th slice is [apply] on the
    [i]-th slices of the inputs. *)
Theorem apply_is_per_example (k : kernel) (x1 x2 : tensor) (m i : nat)
    (s1 s2 sd : shape_t) :
  shape x1 = m :: s1 -> shape x2 = m :: s2 -> length s1 = length s2 ->
  broadcast_shape s1 s2 = Some sd -> feature_ndims k <= length sd ->
  scalar_or_absent (amplitude k) -> scalar_or_absent (length_scale k) ->
  i < m ->
  exists r xi xj ri,
    apply k x1 x2 = Ok r /\
    tf.item x1 i = Ok xi /\ tf.item x2 i = Ok xj /\
    apply k xi xj = Ok ri /\
    shape r = m :: shape ri /\
    forall j, valid j (shape ri) -> get r (i :: j) = get ri j.
Proof.
  destruct k as [a l n], x1 as [sx1 d1], x2 as [sx2 d2]. cbn [shape amplitude
    length_scale feature_ndims].
  intros -> -> Hlen Hsd Hn Ha Hl Hi.
  rewrite !apply_closed. cbn [amplitude length_scale feature_ndims].
  unfold tf.item. cbn [shape data].
  apply Nat.ltb_lt in Hi as Hib. rewrite Hib.
  assert (Hfull : broadcast_shape (m :: s1) (m :: s2) = Some (m :: sd))
    by now rewrite broadcast_shape_cons, bdim_refl, Hsd.
  rewrite (kernel_apply_ok a l n (Tensor (m :: s1) d1) (Tensor (m :: s2) d2)
             (m :: sd) (m :: Spec.batch_dims n sd) Hfull);
    [|cbn [length]; lia
     |now rewrite out_shape_scalar, batch_dims_cons].
  do 4 eexists. split; [reflexivity|]. split; [reflexivity|].
  split; [reflexivity|].
  rewrite apply_closed. cbn [amplitude length_scale feature_ndims].
  rewrite (kernel_apply_ok a l n
             (Tensor s1 (firstn (size s1) (skipn (i * size s1) d1)))
             (Tensor s2 (firstn (size s2) (skipn (i * size s2) d2)))
             sd (Spec.batch_dims n sd) Hsd Hn (out_shape_scalar a l n sd Ha Hl)).
  split; [reflexivity|]. split; [reflexivity|].
  rewrite shape_mk. intros j Hj.
  assert (Hij : valid (i :: j) (m :: Spec.batch_dims n sd))
    by now constructor.
  rewrite !get_mk by assumption.
  unfold Spec.kernel_value.
  rewrite batch_dims_cons, feature_dims_cons by exact Hn.
  rewrite (bidx_id _ _ Hij), (bidx_id _ _ Hj).
  rewrite (sq_distance_item d1 d2 m i n s1 s2 sd j) by assumption.
  rewrite (exponent_of_scalar l (i :: j) j) by exact Hl.
  destruct a as [a|]; [|reflexivity].
  simpl in Ha. rewrite Ha. reflexivity.
Qed.

End LeadingAxis.

(** ** Parameter expansion *)

Section Expansion.

Lemma broadcast_rev_ones (p : nat) (s : shape_t) :
  p <= length s -> broadcast_rev (repeat 1 p) s = Some s.
Proof.
  revert s. induction p as [|p IH]; intros s H; [reflexivity|].
  destruct s as [|x s]; simpl in H; [lia|].
  simpl. rewrite bdim_1_l, IH by lia. reflexivity.
Qed.

Lemma rev_ones (p : nat) : rev (repeat 1 p) = repeat 1 p.
Proof.
  induction p as [|p IH]; [reflexivity|].
  simpl. rewrite IH. clear IH. induction p as [|p IH]; [reflexivity|].
  simpl. now rewrite IH.
Qed.

Lemma broadcast_shape_ones_l (p : nat) (s : shape_t) :
  p <= length s -> broadcast_shape (repeat 1 p) s = Some s.
Proof.
  intros H. unfold broadcast_shape.
  rewrite rev_ones, broadcast_rev_ones by now rewrite length_rev.
  simpl. now rewrite rev_involutive.
Qed.

Lemma bidx_rev_ones_zero (p : nat) (i : index) :
  Forall (eq 0) (bidx_rev (repeat 1 p) i).
Proof.
  revert i. induction p as [|p IH]; intros [|k i]; simpl; constructor; auto.
Qed.

Lemma ravel_zero (s : shape_t) (i : index) : Forall (eq 0) i -> ravel s i = 0.
Proof.
  intros H. revert s. induction H as [|k i <- _ IH]; intros [|n s];
    simpl; auto.
Qed.

(** A scalar padded with ones is read at its only element. *)
Lemma get_padded_scalar (t : tensor) (p : nat) (i : index) :
  shape t = [] ->
  get (util.pad_shape_right_with_ones t p)
      (bidx (shape (util.pad_shape_right_with_ones t p)) i)
  = get t (bidx (shape t) i).
Proof.
  intros Ht. unfold get, util.pad_shape_right_with_ones. cbn [shape data].
  rewrite Ht. cbn [app]. rewrite bidx_nil. cbn [ravel].
  rewrite ravel_zero; [reflexivity|].
  unfold bidx. apply Forall_rev. rewrite rev_ones. apply bidx_rev_ones_zero.
Qed.

(** X12.  For scalar or absent parameters the parameter expansion has no
    effect, as long as the inputs have at least that many batch
    dimensions. *)
Theorem expansion_is_immaterial_for_scalars (k : kernel) (x1 x2 : tensor)
    (sd : shape_t) (p : nat) :
  broadcast_shape (shape x1) (shape x2) = Some sd ->
  feature_ndims k + p <= length sd ->
  scalar_or_absent (amplitude k) -> scalar_or_absent (length_scale k) ->
  _apply k x1 x2 p = _apply k x1 x2 0.
Proof.
  destruct k as [a l n]. cbn [amplitude length_scale feature_ndims].
  intros Hsd Hn Ha Hl. rewrite !_apply_closed.
  cbn [amplitude length_scale feature_ndims].
  assert (Hp : p <= length (Spec.batch_dims n sd)).
  { unfold Spec.batch_dims. rewrite length_firstn. lia. }
  assert (Hs : forall q, q <= length (Spec.batch_dims n sd) ->
             Spec.out_shape
               (option_map (fun t => util.pad_shape_right_with_ones t q) a)
               (option_map (fun t => util.pad_shape_right_with_ones t q) l)
               n sd = Some (Spec.batch_dims n sd)).
  { intros q Hq. unfold Spec.out_shape.
    destruct l as [l|], a as [a|]; simpl in Ha, Hl;
      cbn [option_map shape util.pad_shape_right_with_ones];
      rewrite ?Ha, ?Hl; cbn [app];
      rewrite 1?(broadcast_shape_comm (Spec.batch_dims n sd) (repeat 1 q));
      rewrite ?broadcast_shape_ones_l by exact Hq;
      rewrite ?broadcast_shape_ones_l by exact Hq; reflexivity. }
  assert (Hn' : n <= length sd) by lia.
  rewrite (kernel_apply_ok _ _ _ _ _ _ _ Hsd Hn' (Hs p Hp)).
  rewrite (kernel_apply_ok _ _ _ _ _ _ _ Hsd Hn' (Hs 0 (Nat.le_0_l _))).
  f_equal. apply mk_ext. intros i _.
  unfold Spec.kernel_value, Spec.exponent_of.
  destruct l as [l|], a as [a|]; simpl in Ha, Hl; cbn [option_map];
    rewrite ?(get_padded_scalar _ p), ?(get_padded_scalar _ 0) by assumption;
    reflexivity.
Qed.

End Expansion.

(** ** Inputs that are rejected *)

Section Rejected.

(** X13.  Feature vectors of different sizes, neither of size 1, are
    rejected with a ShapeError, whatever the parameters and the parameter
    expansion. *)
Theorem mismatched_feature_sizes_are_rejected (k : kernel) (x1 x2 : tensor)
    (s1 s2 : shape_t) (d1 d2 p : nat) :
  shape x1 = s1 ++ [d1] -> shape x2 = s2 ++ [d2] ->
  d1 <> d2 -> d1 <> 1 -> d2 <> 1 ->
  _apply k x1 x2 p = Err ShapeError.
Proof.
  intros H1 H2 Hd Hd1 Hd2.
  unfold _apply, tf.convert_to_tensor, tf.squared_difference.
  rewrite broadcast_op_none; [reflexivity|].
  unfold broadcast_shape. rewrite H1, H2, !rev_app_distr. simpl.
  unfold bdim.
  destruct (Nat.eqb_spec d1 d2); [contradiction|].
  destruct (Nat.eqb_spec d1 1); [contradiction|].
  destruct (Nat.eqb_spec d2 1); [contradiction|].
  reflexivity.
Qed.

End Rejected.

(** ** Further concrete runs *)

Section MoreExamples.

Import Inputs MoreInputs.
Local Open Scope R_scope.
Local Open Scope string_scope.

Lemma init_k21 :
  __init__ (Some (scalar 2)) (Some (scalar 1)) 1 true "ExponentiatedQuadratic"
  = Ok k21.
Proof.
  unfold __init__.
  rewrite (validate_enabled_ok (Some (scalar 2)) two_positive).
  rewrite (validate_enabled_ok (Some (scalar 1)) one_positive).
  reflexivity.
Qed.

Lemma validate_arg_outcome_witness :
  true = true /\
  exists t, Some (scalar 1) = Some t /\ always_fails ShapeError t = Err ShapeError.
Proof.
  exact (proj2 (validate_arg_outcome (Some (scalar 1)) (always_fails ShapeError)
                  true) ShapeError eq_refl).
Defined.

Lemma init_keeps_arguments_witness :
  amplitude k21 = Some (scalar 2) /\ length_scale k21 = Some (scalar 1) /\
  feature_ndims k21 = 1%nat.
Proof.
  exact (init_keeps_arguments (Some (scalar 2)) (Some (scalar 1)) 1 true
           "ExponentiatedQuadratic" k21 init_k21).
Defined.

Lemma batch_shape_succeeds_iff_witness :
  batch_shape k21 = Ok [] <->
  exists a l, amplitude k21 = Some a /\ length_scale k21 = Some l /\
              broadcast_shape (shape a) (shape l) = Some [].
Proof.
  exact (proj1 (batch_shape_succeeds_iff k21 [])).
Defined.

Lemma result_shape_from_batch_shape_witness :
  (exists r, apply k21 v123 v124 = Ok r /\ shape r = []) <->
  (exists B sd,
     batch_shape k21 = Ok B /\
     broadcast_shape (shape v123) (shape v124) = Some sd /\
     (feature_ndims k21 <= length sd)%nat /\
     broadcast_shape B (Spec.batch_dims (feature_ndims k21) sd) = Some []).
Proof.
  apply (result_shape_from_batch_shape k21 (scalar 2) (scalar 1) v123 v124 []).
  - reflexivity.
  - reflexivity.
Defined.

Lemma apply_broadcasts_inputs_witness :
  apply k21 point0 v123
  = apply k21 (Spec.broadcast_to point0 [3%nat]) (Spec.broadcast_to v123 [3%nat]).
Proof.
  apply (apply_broadcasts_inputs k21 point0 v123 [3%nat]). reflexivity.
Defined.

Lemma apply_is_per_example_witness :
  exists r xi xj ri,
    apply k21 x5 x5 = Ok r /\
    tf.item x5 2 = Ok xi /\ tf.item x5 2 = Ok xj /\
    apply k21 xi xj = Ok ri /\
    shape r = 5%nat :: shape ri /\
    forall j, valid j (shape ri) -> get r (2%nat :: j) = get ri j.
Proof.
  apply (apply_is_per_example k21 x5 x5 5 2 [1%nat] [1%nat] [1%nat]).
  - reflexivity.
  - reflexivity.
  - reflexivity.
  - reflexivity.
  - vm_compute. lia.
  - reflexivity.
  - reflexivity.
  - lia.
Defined.

Lemma expansion_is_immaterial_for_scalars_witness :
  _apply k21 x5 x5 1 = _apply k21 x5 x5 0.
Proof.
  apply (expansion_is_immaterial_for_scalars k21 x5 x5 [5%nat; 1%nat] 1).
  - reflexivity.
  - vm_compute. lia.
  - reflexivity.
  - reflexivity.
Defined.

Lemma mismatched_feature_sizes_are_rejected_witness :
  _apply k21 v123 origin2 0 = Err ShapeError.
Proof.
  apply (mismatched_feature_sizes_are_rejected k21 v123 origin2 [] [] 3 2 0).
  - reflexivity.
  - reflexivity.
  - lia.
  - lia.
  - lia.
Defined.

End MoreExamples.

(** * Execution modes and floating point *)

(** ** Validation, eager and through a graph *)

Section Barrier.

Lemma identity_nil (x : Staged.node) : Staged.identity [] x = x.
Proof. now destruct x. Qed.

Lemma control_dependencies_nil (m : Staged.execution) :
  Staged.control_dependencies m [] = [].
Proof. now destruct m. Qed.

Lemma staged_validate_disabled (m : Staged.execution) (arg : option Staged.node)
    (assertion : Staged.execution -> Staged.node -> result Staged.op) :
  Staged._validate_arg_if_not_none m arg assertion false = Ok arg.
Proof.
  destruct arg as [x|]; [|reflexivity].
  simpl. now rewrite control_dependencies_nil, identity_nil.
Qed.

Lemma run_concrete (x : Staged.node) :
  Staged.concrete x -> Staged.run x = Ok (Staged.output x).
Proof. unfold Staged.concrete, Staged.run. now intros ->. Qed.

Lemma assert_positive_outcome (t : tensor) :
  tf.assert_positive t = Ok tt \/ tf.assert_positive t = Err ValidationError.
Proof. unfold tf.assert_positive. destruct (forallb _ _); auto. Qed.

Lemma eager_validate_err (x : Staged.node) :
  Staged.concrete x -> Spec.has_nonpositive (Some (Staged.output x)) ->
  Staged._validate_arg_if_not_none Staged.Eager (Some x)
    Staged.assert_positive true
  = Err ValidationError.
Proof.
  intros Hc Hn. simpl. rewrite (run_concrete x Hc). simpl.
  now rewrite (assert_positive_err _ Hn).
Qed.

Lemma eager_validate_ok (p : option Staged.node) :
  Staged.all_concrete p -> Spec.all_positive (Staged.value_of p) ->
  Staged._validate_arg_if_not_none Staged.Eager p Staged.assert_positive true
  = Ok p.
Proof.
  destruct p as [x|]; [|reflexivity].
  intros Hc Hp. simpl in *. rewrite (run_concrete x Hc). simpl.
  rewrite (assert_positive_ok _ Hp). simpl. now rewrite identity_nil.
Qed.

(** A run fails with the ValidationError as soon as one of the operations
    it waits for is a failed assertion and the others are assertions too. *)
Lemma control_dependencies_fail (deps : list Staged.op) :
  Forall (fun o => o = Ok tt \/ o = Err ValidationError) deps ->
  In (Err ValidationError) deps ->
  tf.control_dependencies deps = Err ValidationError.
Proof.
  induction 1 as [|o deps Ho _ IH]; intros Hin; [contradiction|].
  simpl. destruct Ho as [-> | ->]; [|reflexivity].
  simpl. apply IH. destruct Hin as [H|H]; [discriminate|exact H].
Qed.

(** What the result of [_apply] waits for, and its value: the value is
    that of the operations run one by one. *)
Lemma staged_apply_result (k : Staged.kernel) (x1 x2 r : Staged.node) (p : nat) :
  Staged._apply k x1 x2 p = Ok r ->
  Staged.control_inputs r
  = Staged.waits_for (Staged.amplitude k)
    ++ (Staged.control_inputs x1 ++ Staged.control_inputs x2)
    ++ Staged.waits_for (Staged.length_scale k) /\
  _apply (Kernel (Staged.value_of (Staged.amplitude k))
                 (Staged.value_of (Staged.length_scale k))
                 (Staged.feature_ndims k))
         (Staged.output x1) (Staged.output x2) p
  = Ok (Staged.output r).
Proof.
  destruct k as [a l n]. unfold Staged._apply, _apply, tf.convert_to_tensor.
  cbn [Staged.amplitude Staged.length_scale Staged.feature_ndims
       amplitude length_scale feature_ndims].
  unfold Staged.lift2 at 1. unfold Staged.lift1 at 1 2 3 4 5 6.
  cbn [Staged.output Staged.control_inputs Staged.dtype_of].
  destruct (Staged.dtype_eqb (Staged.dtype_of x1) (Staged.dtype_of x2));
    [|discriminate].
  destruct (tf.squared_difference (Staged.output x1) (Staged.output x2)) as [d|];
    [|discriminate].
  cbn [bind]. unfold Staged.lift1r.
  cbn [Staged.output Staged.control_inputs Staged.dtype_of].
  destruct (util.sum_rightmost_ndims_preserving_shape d n) as [s|];
    [|discriminate].
  cbn [bind].
  destruct l as [l|], a as [a|];
    cbn [Staged.value_of option_map Staged.waits_for];
    unfold Staged.lift2, Staged.lift1;
    cbn [Staged.output Staged.control_inputs Staged.dtype_of];
    repeat match goal with
           | |- context [Staged.dtype_eqb ?x ?y] =>
               destruct (Staged.dtype_eqb x y)
           | |- context [bind (tf.truediv ?x ?y)] => destruct (tf.truediv x y)
           | |- context [bind (tf.multiply ?x ?y)] => destruct (tf.multiply x y)
           | |- _ => progress cbn [bind Staged.output Staged.control_inputs
                                   Staged.dtype_of]
           end;
    try discriminate;
    intros [= <-]; cbn [Staged.output Staged.control_inputs];
    rewrite <- ?app_assoc, ?app_nil_r; split; reflexivity.
Qed.

Lemma same_float_dtype_error (ts : list (option Staged.node)) (e : error) :
  Staged.assert_same_float_dtype ts = Err e -> e = TypeMismatchError.
Proof.
  unfold Staged.assert_same_float_dtype. generalize (@None Staged.dtype).
  induction ts as [|[x|] ts IH]; intros d; simpl.
  - destruct d as [d|]; [|discriminate].
    destruct (Staged.is_floating d); [discriminate|now intros [= <-]].
  - destruct d as [d|]; [|apply IH].
    destruct (Staged.dtype_eqb d (Staged.dtype_of x)); [apply IH|].
    now intros [= <-].
  - apply IH.
Qed.

Lemma graph_validate (p : option Staged.node) :
  Staged._validate_arg_if_not_none Staged.Graph p Staged.assert_positive true
  = Ok (Staged.guard p).
Proof. now destruct p. Qed.

Lemma value_of_guard (p : option Staged.node) :
  Staged.value_of (Staged.guard p) = Staged.value_of p.
Proof. now destruct p. Qed.

Lemma waits_for_guard (p : option Staged.node) :
  Staged.all_concrete p ->
  Staged.waits_for (Staged.guard p)
  = match Staged.value_of p with
    | Some t => [tf.assert_positive t]
    | None => []
    end.
Proof.
  destruct p as [x|]; [|reflexivity]. intros Hc. simpl in *.
  rewrite (run_concrete x Hc), Hc. reflexivity.
Qed.

Lemma waits_for_guard_outcome (p : option Staged.node) :
  Staged.all_concrete p ->
  Forall (fun o => o = Ok tt \/ o = Err ValidationError)
         (Staged.waits_for (Staged.guard p)).
Proof.
  intros Hc. rewrite (waits_for_guard p Hc).
  destruct (Staged.value_of p) as [t|]; constructor;
    [apply assert_positive_outcome | constructor].
Qed.

Lemma waits_for_guard_fails (p : option Staged.node) :
  Staged.all_concrete p -> Spec.has_nonpositive (Staged.value_of p) ->
  In (Err ValidationError) (Staged.waits_for (Staged.guard p)).
Proof.
  intros Hc Hn. rewrite (waits_for_guard p Hc).
  destruct (Staged.value_of p) as [t|] eqn:E; [|destruct Hn].
  left. now apply assert_positive_err.
Qed.

(** C3. Parameter validation is gated by [validate_args], and where the
    check fires depends on how operations are executed.

    For parameters that are constants (they wait for nothing):
    - with [validate_args = false] construction checks no value: it is the
      element-type check of [tf.assert_same_float_dtype] followed by the
      kernel whose parameters are the arguments themselves, non-positive or
      not, so a ValidationError is never raised;
    - with [validate_args = true] under eager execution, a non-positive
      element in a present parameter makes [__init__] raise the
      ValidationError, and positive parameters are kept as they are;
    - with [validate_args = true] under graph execution, [__init__] raises
      no ValidationError whatever the values: the only error it can raise is
      the one of the element-type check.  When it returns a kernel, the
      parameters have the values of the arguments, and if one of them has a
      non-positive element then every result of [_apply] on constant inputs
      raises the ValidationError when it is evaluated. *)
Theorem validation_is_a_barrier (m : Staged.execution)
    (a l : option Staged.node) (n : nat) (name : string) :
  Staged.all_concrete a -> Staged.all_concrete l ->
  Staged.__init__ m a l n false name
  = (Staged.assert_same_float_dtype [a; l] ;;; Ok (Staged.Kernel a l n))%result /\
  (Spec.has_nonpositive (Staged.value_of a) \/
   Spec.has_nonpositive (Staged.value_of l) ->
   Staged.__init__ Staged.Eager a l n true name = Err ValidationError) /\
  (Spec.all_positive (Staged.value_of a) ->
   Spec.all_positive (Staged.value_of l) ->
   Staged.__init__ Staged.Eager a l n true name
   = (Staged.assert_same_float_dtype [a; l] ;;; Ok (Staged.Kernel a l n))%result) /\
  (forall e, Staged.__init__ Staged.Graph a l n true name = Err e ->
             e = TypeMismatchError) /\
  (forall k, Staged.__init__ Staged.Graph a l n true name = Ok k ->
     Staged.value_of (Staged.amplitude k) = Staged.value_of a /\
     Staged.value_of (Staged.length_scale k) = Staged.value_of l /\
     Staged.feature_ndims k = n /\
     (Spec.has_nonpositive (Staged.value_of a) \/
      Spec.has_nonpositive (Staged.value_of l) ->
      forall x1 x2 p r,
        Staged.concrete x1 -> Staged.concrete x2 ->
        Staged._apply k x1 x2 p = Ok r ->
        Staged.run r = Err ValidationError)).
Proof.
  intros Ha Hl. split; [|split; [|split; [|split]]].
  - unfold Staged.__init__. now rewrite !staged_validate_disabled.
  - intros Hn. unfold Staged.__init__.
    destruct (positive_or_not (Staged.value_of a)) as [Hpa|Hna].
    + rewrite (eager_validate_ok a Ha Hpa). cbn [bind].
      destruct Hn as [Hn|Hn].
      * exfalso. destruct a as [x|]; [|destruct Hn].
        destruct Hn as (y & Hy & Hle). simpl in Hpa, Hy.
        rewrite Forall_forall in Hpa. apply Hpa in Hy. lra.
      * destruct l as [y|]; [|destruct Hn].
        now rewrite (eager_validate_err y Hl Hn).
    + destruct a as [x|]; [|destruct Hna].
      now rewrite (eager_validate_err x Ha Hna).
  - intros Hpa Hpl. unfold Staged.__init__.
    now rewrite (eager_validate_ok a Ha Hpa), (eager_validate_ok l Hl Hpl).
  - intros e. unfold Staged.__init__. rewrite !graph_validate. cbn [bind].
    destruct (Staged.assert_same_float_dtype _) eqn:E; [discriminate|].
    intros [= <-]. exact (same_float_dtype_error _ _ E).
  - intros k. unfold Staged.__init__. rewrite !graph_validate. cbn [bind].
    destruct (Staged.assert_same_float_dtype _); [|discriminate].
    intros [= <-]. cbn [bind Staged.amplitude Staged.length_scale Staged.feature_ndims].
    rewrite !value_of_guard. repeat split.
    intros Hn x1 x2 p r H1 H2 Hr.
    apply staged_apply_result in Hr as [Hc _].
    cbn [Staged.amplitude Staged.length_scale] in Hc.
    unfold Staged.concrete in H1, H2. rewrite H1, H2 in Hc. simpl in Hc.
    unfold Staged.run. rewrite Hc.
    rewrite (control_dependencies_fail
               (Staged.waits_for (Staged.guard a) ++ Staged.waits_for (Staged.guard l)));
      [reflexivity| |].
    + apply Forall_app. split; now apply waits_for_guard_outcome.
    + apply in_or_app.
      destruct Hn as [Hn|Hn]; [left|right]; now apply waits_for_guard_fails.
Qed.

(** The example of the specification under either execution:
    [length_scale = -1.0] with [validate_args].  Eager construction raises;
    without validation the kernel is built; a graph-built kernel raises
    when a result of [_apply] is evaluated. *)
Lemma validation_is_a_barrier_witness :
  Staged.__init__ Staged.Eager None (Some Staged.minus_one) 1 true
    "ExponentiatedQuadratic" = Err ValidationError /\
  Staged.__init__ Staged.Eager None (Some Staged.minus_one) 1 false
    "ExponentiatedQuadratic" = Ok (Staged.Kernel None (Some Staged.minus_one) 1) /\
  exists r,
    Staged._apply Staged.guarded_kernel Staged.vector123 Staged.vector123 0
    = Ok r /\
    Staged.run r = Err ValidationError.
Proof.
  assert (Hn : Spec.has_nonpositive (Staged.value_of (Some Staged.minus_one))).
  { exists (-1)%R. split; [now left | lra]. }
  split; [|split].
  - apply (proj1 (proj2 (validation_is_a_barrier Staged.Eager None
                           (Some Staged.minus_one) 1 "ExponentiatedQuadratic"
                           I eq_refl))).
    now right.
  - exact (proj1 (validation_is_a_barrier Staged.Eager None
                    (Some Staged.minus_one) 1 "ExponentiatedQuadratic"
                    I eq_refl)).
  - eexists. split; [reflexivity|].
    apply (proj2 (proj2 (proj2 (proj2 (validation_is_a_barrier Staged.Graph None
                           (Some Staged.minus_one) 1 "ExponentiatedQuadratic"
                           I eq_refl))))
             Staged.guarded_kernel eq_refl)
      with (x1 := Staged.vector123) (x2 := Staged.vector123) (p := 0).
    + now right.
    + reflexivity.
    + reflexivity.
    + reflexivity.
Defined.

(** Graph construction with [length_scale = -1.0] and [validate_args]
    returns a kernel: no ValidationError is raised at construction. *)
Lemma graph_construction_defers_validation :
  Spec.has_nonpositive (Staged.value_of (Some Staged.minus_one)) /\
  Staged.__init__ Staged.Graph None (Some Staged.minus_one) 1 true
    "ExponentiatedQuadratic" = Ok Staged.guarded_kernel /\
  Staged.__init__ Staged.Graph None (Some Staged.minus_one) 1 true
    "ExponentiatedQuadratic" <> Err ValidationError.
Proof.
  split; [|split].
  - exists (-1)%R. split; [now left | lra].
  - reflexivity.
  - discriminate.
Qed.

End Barrier.

(** ** Evaluation in IEEE binary64 *)

Section Binary64.








End Binary64.
